(** * dexcom-connect-llm: the token store, the token refresher and the
      HTTP handlers of [server.js]

    A shallow embedding of [src/server.js].  The program is a single Express
    application that keeps one OAuth token record in a PostgreSQL table and
    proxies three read requests to the Dexcom API.

    - The [tokens] table is a finite map from the primary key [id] to the
      three other columns.
    - Everything outside the process (the database server, the two Dexcom
      endpoints, the clock, the chart renderer) is an oracle of the
      environment [Env]; each oracle is asked with the history of the calls
      made so far, so that two identical requests may be answered
      differently.
    - [async] functions are computations in a state-and-exception monad [M]
      over the [World] (table contents and call history); [await] is bind and
      [try]/[catch] is [try_catch].  Requests are served one at a time.
    - Timestamps and lifetimes are the integers their doubles hold ([Z]); the
      sum and the product that compute an expiry round as doubles do
      ([js_add], [js_mul]).  Glucose values are IEEE 754 doubles (Rocq's
      primitive [float]), so that [0 / 0] is [NaN] and [Math.max()] is
      [-Infinity] exactly as in JavaScript.
    - [req.body] of a POST is an object or [undefined]; reading a property of
      [undefined] throws before the handler's [try].
    - [console.log] and [console.error] have no effect on the state modelled
      here and are left out. *)

From Stdlib Require Import ZArith List String Lia DecimalString DecimalZ DecimalPos.
From Stdlib Require Import Floats.FloatClass Floats.PrimFloat.
From stdpp Require Import base option gmap strings list.

Local Open Scope string_scope.
Local Open Scope list_scope.
Local Open Scope Z_scope.

(** ** JavaScript values *)

(** A property that holds a string, or [null]/[undefined] ([None]). *)
Definition jsstring := option string.

(** [!!x] for such a property: [null], [undefined] and [''] are falsy. *)
Definition truthy (x : jsstring) : bool :=
  match x with
  | Some s => negb (String.eqb s "")
  | None => false
  end.

(** The text a template literal [`${x}`] gives for such a property read from
    a database row (where a missing value is [null]). *)
Definition template (x : jsstring) : string :=
  match x with
  | Some s => s
  | None => "null"
  end.

(** [ToNumber] of a BIGINT column handed to [>] or [-]: [null] counts as 0. *)
Definition ToNumber (x : option Z) : Z :=
  match x with
  | Some n => n
  | None => 0
  end.

(** *** Doubles that hold integers

    A JavaScript number whose value is an integer is that integer; every
    non-finite number ([Infinity], [-Infinity], [NaN]) is the one value
    [not_finite], which no BIGINT column accepts. *)
Definition not_finite : Z := 2 ^ 1024.

Definition finite (z : Z) : bool := Z.abs z <? 2 ^ 1024.

(** The integers up to [2 ^ 53] in magnitude are doubles. *)
Definition safe_integer (z : Z) : Prop := - 2 ^ 53 <= z <= 2 ^ 53.

(** A natural number rounded to 53 significant bits, to nearest, ties to
    even. *)
Definition round53 (n : Z) : Z :=
  if n <=? 2 ^ 53 then n
  else
    let e := Z.log2 n - 52 in
    let q := Z.shiftr n e in
    let r := n - Z.shiftl q e in
    let half := Z.shiftl 1 (e - 1) in
    if (half <? r) || ((r =? half) && Z.odd q)
    then Z.shiftl (q + 1) e
    else Z.shiftl q e.

(** The double nearest to an integer. *)
Definition double (z : Z) : Z :=
  let m := round53 (Z.abs z) in
  if 2 ^ 1024 <=? m then not_finite else Z.sgn z * m.

(** [a + b] and [a * b] on numbers. *)
Definition js_add (a b : Z) : Z :=
  let x := double a in
  let y := double b in
  if finite x && finite y then double (x + y) else not_finite.

Definition js_mul (a b : Z) : Z :=
  let x := double a in
  let y := double b in
  if finite x && finite y then double (x * y) else not_finite.

Arguments double : simpl never.
Arguments js_add : simpl never.
Arguments js_mul : simpl never.

(** Doubles for the integers used as array lengths and JSON numbers. *)
Fixpoint Number_of_pos (p : positive) : float :=
  match p with
  | xH => 1
  | xO q => 2 * Number_of_pos q
  | xI q => 2 * Number_of_pos q + 1
  end%float.

Definition Number (z : Z) : float :=
  match z with
  | Z0 => 0
  | Zpos p => Number_of_pos p
  | Zneg p => - Number_of_pos p
  end%float.

(** JSON documents, as [res.json] sends them. *)
#[local] Unset Elimination Schemes.
Inductive Json :=
| JNull
| JNumber (x : float)
| JString (s : string)
| JArray (items : list Json)
| JObject (members : list (string * Json)).
#[local] Set Elimination Schemes.

(** [JSON.stringify] writes [NaN], [Infinity] and [-Infinity] as [null]. *)
Definition json_number (x : float) : Json :=
  if is_finite x then JNumber x else JNull.

Definition json_string (x : jsstring) : Json :=
  match x with
  | Some s => JString s
  | None => JNull
  end.

(** Thrown values: what the handlers read of an error is its [message] and,
    for a failed axios call, [response.data]. *)
Record Exn := {
  name : string;
  message : string;
  response_data : option Json
}.

Definition Error (msg : string) : Exn :=
  {| name := "Error"; message := msg; response_data := None |}.

Definition ReferenceError (ident : string) : Exn :=
  {| name := "ReferenceError";
     message := ident +:+ " is not defined";
     response_data := None |}.

Definition TypeError (msg : string) : Exn :=
  {| name := "TypeError"; message := msg; response_data := None |}.

(** ** The [tokens] table

    [CREATE TABLE tokens (id INTEGER PRIMARY KEY, access_token TEXT,
    refresh_token TEXT, expires_at BIGINT)]: every column but the key is
    nullable.  [Tokens] is both the object handed to [saveTokens] and a row
    of the table without its key; the [id] property of a row object is never
    read by the program.  pg hands a BIGINT back as decimal text, which every
    use in [server.js] ([>] and [-]) converts to the number: the row carries
    the number. *)
Record Tokens := {
  access_token : jsstring;
  refresh_token : jsstring;
  expires_at : option Z
}.

(** A value PostgreSQL accepts for a BIGINT column. *)
Definition int8 (x : option Z) : bool :=
  match x with
  | Some n => (- 2 ^ 63 <=? n) && (n <? 2 ^ 63)
  | None => true
  end.

(** The two statements the program sends. *)
Inductive Sql :=
| UPSERT (values : Tokens)
    (* INSERT INTO tokens ... VALUES (1, $1, $2, $3)
       ON CONFLICT (id) DO UPDATE SET ... RETURNING * *)
| SELECT.
    (* SELECT * FROM tokens WHERE id = 1 *)

(** ** Upstream data *)

(** [response.data] of the token endpoint. *)
Record TokenResponse := {
  data_access_token : jsstring;
  data_refresh_token : jsstring;
  data_expires_in : Z
}.

(** One element of [response.data.records]; only the two properties that
    [server.js] reads are kept. *)
Record Reading := {
  systemTime : string;
  value : float
}.

Definition Params := list (string * jsstring).

(** ** Calls and the world *)

(** What the process does that the outside can see, in order.  The last
    constructor is a ghost event marking each entry into [refreshToken]. *)
Inductive Call :=
| pool_query (q : Sql)
| axios_post (url : string) (params : Params)
| axios_get (url : string) (authorization : string) (params : Params)
| refreshToken_called.

Record World := {
  db_tokens : gmap Z Tokens;
  calls : list Call
}.

(** The configuration of a chart, as far as [server.js] fills it in. *)
Record ChartConfiguration := {
  chart_type : string;
  labels : list string;
  dataset_label : string;
  data : list float;
  borderColor : string;
  tension : float
}.

Record Env := {
  (* process.env *)
  CLIENT_ID : jsstring;
  CLIENT_SECRET : jsstring;
  REDIRECT_URI : jsstring;
  (* Date.now(), in milliseconds *)
  now : list Call -> Z;
  (* the error, if any, with which the database rejects a statement *)
  pg_error : list Call -> Sql -> option Exn;
  (* POST https://api.dexcom.com/v2/oauth2/token *)
  oauth2_token : list Call -> Params -> Exn + TokenResponse;
  (* GET https://api.dexcom.com/v2/users/self/egvs *)
  egvs : list Call -> string -> Params -> Exn + list Reading;
  (* new Date(t).toLocaleTimeString() *)
  toLocaleTimeString : string -> string;
  (* chartJSNodeCanvas.renderToBuffer *)
  renderToBuffer : Z -> Z -> ChartConfiguration -> Exn + list Byte.byte
}.

(** ** The monad of [async] functions *)

Inductive Completion (A : Type) :=
| Normal (a : A)
| Throw (e : Exn).
Arguments Normal {A} a.
Arguments Throw {A} e.

Definition M (A : Type) : Type := World -> Completion A * World.

Definition ret {A} (a : A) : M A := fun w => (Normal a, w).

Definition throw {A} (e : Exn) : M A := fun w => (Throw e, w).

Definition bind {A B} (m : M A) (k : A -> M B) : M B :=
  fun w =>
    match m w with
    | (Normal a, w') => k a w'
    | (Throw e, w') => (Throw e, w')
    end.

Definition try_catch {A} (m : M A) (handler : Exn -> M A) : M A :=
  fun w =>
    match m w with
    | (Normal a, w') => (Normal a, w')
    | (Throw e, w') => handler e w'
    end.

Notation "x <- m ;; k" := (bind m (fun x => k))
  (at level 100, m at next level, right associativity).

Definition log (c : Call) (w : World) : World :=
  {| db_tokens := db_tokens w; calls := calls w ++ [c] |}.

(** ** [Math.max], [Math.min] and the trend statistics *)

Definition is_pos_zero (x : float) : bool :=
  match classify x with PZero => true | _ => false end.

Definition is_neg_zero (x : float) : bool :=
  match classify x with NZero => true | _ => false end.

(** ECMAScript [Math.max]: starts from [-Infinity]; any [NaN] argument makes
    the result [NaN]; [+0] counts as larger than [-0]. *)
Definition Math_max (values : list float) : float :=
  fold_left
    (fun highest number =>
       if is_nan highest || is_nan number then nan
       else if (is_pos_zero number && is_neg_zero highest) || (highest <? number)%float
            then number
            else highest)
    values neg_infinity.

(** ECMAScript [Math.min]: starts from [+Infinity]; [-0] counts as smaller
    than [+0]. *)
Definition Math_min (values : list float) : float :=
  fold_left
    (fun lowest number =>
       if is_nan lowest || is_nan number then nan
       else if (is_neg_zero number && is_pos_zero lowest) || (number <? lowest)%float
            then number
            else lowest)
    values infinity.

Record Analysis := {
  average : float;
  highest : float;
  lowest : float;
  count : Z
}.

(** The object literal [analysis] of the trends handler. *)
Definition analysis (values : list float) : Analysis :=
  {| average :=
       (fold_left (fun a b => a + b) values 0
        / Number (Z.of_nat (length values)))%float;
     highest := Math_max values;
     lowest := Math_min values;
     count := Z.of_nat (length values) |}.

Definition json_of_analysis (a : Analysis) : Json :=
  JObject [("average", json_number (average a));
           ("highest", json_number (highest a));
           ("lowest", json_number (lowest a));
           ("count", json_number (Number (count a)))].

Definition json_of_reading (r : Reading) : Json :=
  JObject [("systemTime", JString (systemTime r));
           ("value", json_number (value r))].

(** ** Responses *)

Inductive Body :=
| json (j : Json)
| buffer (image : list Byte.byte).

Record Response := {
  status : Z;
  headers : list (string * string);
  body : option Body
}.

(** The response object a handler receives: status 200 until changed. *)
Definition res : Response :=
  {| status := 200; headers := []; body := None |}.

Definition res_status (code : Z) (r : Response) : Response :=
  {| status := code; headers := headers r; body := body r |}.

Definition res_set (field val : string) (r : Response) : Response :=
  {| status := status r; headers := headers r ++ [(field, val)]; body := body r |}.

Definition res_json (j : Json) (r : Response) : Response :=
  {| status := status r;
     headers := headers r ++ [("Content-Type", "application/json")];
     body := Some (json j) |}.

Definition res_send (image : list Byte.byte) (r : Response) : Response :=
  {| status := status r; headers := headers r; body := Some (buffer image) |}.

Definition error_body (msg : string) : Json :=
  JObject [("error", JString msg)].

(** Truthiness of a JSON value, for [error.response?.data || error.message]. *)
Definition json_truthy (j : Json) : bool :=
  match j with
  | JNull => false
  | JNumber x => negb (is_nan x || is_zero x)
  | JString s => negb (String.eqb s "")
  | JArray _ | JObject _ => true
  end.

Definition details (error : Exn) : Json :=
  match response_data error with
  | Some d => if json_truthy d then d else JString (message error)
  | None => JString (message error)
  end.

(** ** The bindings of the module

    The identifiers [server.js] declares or imports at top level, and the
    globals of Node it uses.  The package [chartjs-node-canvas] is never
    required, and Node has no global [ChartJSNodeCanvas]. *)
Definition module_scope : list string :=
  ["express"; "Pool"; "axios"; "cors"; "app"; "pool"; "initializeDatabase";
   "saveTokens"; "getTokens"; "refreshToken"; "PORT"].

Definition node_globals : list string :=
  ["require"; "process"; "console"; "Date"; "Math"; "Error"].

Definition bound (ident : string) : bool :=
  existsb (String.eqb ident) (module_scope ++ node_globals).

Definition token_url := "https://api.dexcom.com/v2/oauth2/token".
Definition egvs_url := "https://api.dexcom.com/v2/users/self/egvs".

Section Server.

Variable E : Env.

(** *** Primitive effects *)

Definition Date_now : M Z := fun w => (Normal (now E (calls w)), w).

(** [pool.query] of the upsert.  The statement either fails as a whole or
    writes the row with key 1 and returns it ([RETURNING *]).  The result
    holds the values of the columns; the object that pg makes of them is
    [object_read], further down. *)
Definition query_upsert (values : Tokens) : M Tokens := fun w =>
  let w' := log (pool_query (UPSERT values)) w in
  match pg_error E (calls w) (UPSERT values) with
  | Some e => (Throw e, w')
  | None =>
      if int8 (expires_at values)
      then (Normal values,
            {| db_tokens := <[1 := values]> (db_tokens w); calls := calls w' |})
      else (Throw (Error "value out of range for type bigint"), w')
  end.

(** [pool.query] of the select; the result is [result.rows[0]], if any. *)
Definition query_select : M (option Tokens) := fun w =>
  let w' := log (pool_query SELECT) w in
  match pg_error E (calls w) SELECT with
  | Some e => (Throw e, w')
  | None => (Normal (db_tokens w !! 1), w')
  end.

Definition post_token (params : Params) : M TokenResponse := fun w =>
  let w' := log (axios_post token_url params) w in
  match oauth2_token E (calls w) params with
  | inl e => (Throw e, w')
  | inr d => (Normal d, w')
  end.

Definition get_egvs (authorization : string) (params : Params)
  : M (list Reading) := fun w =>
  let w' := log (axios_get egvs_url authorization params) w in
  match egvs E (calls w) authorization params with
  | inl e => (Throw e, w')
  | inr records => (Normal records, w')
  end.

(** *** Token management functions *)

Definition saveTokens (tokenData : Tokens) : M Tokens :=
  let values :=
    {| access_token := access_token tokenData;
       refresh_token := refresh_token tokenData;
       expires_at := expires_at tokenData |} in
  try_catch
    (result <- query_upsert values ;;
     ret result)
    (fun error => throw error).

Definition getTokens : M (option Tokens) :=
  try_catch
    (result <- query_select ;;
     ret result)
    (fun error => throw error).

Definition refreshToken : M Tokens :=
  try_catch
    (_ <- (fun w => (Normal tt, log refreshToken_called w)) ;;
     tokens <- getTokens ;;
     if negb (truthy (tokens ≫= refresh_token))
     then throw (Error "No refresh token available")
     else
       response <- post_token
         [("client_id", CLIENT_ID E);
          ("client_secret", CLIENT_SECRET E);
          ("refresh_token", tokens ≫= refresh_token);
          ("grant_type", Some "refresh_token")] ;;
       t <- Date_now ;;
       let newTokens :=
         {| access_token := data_access_token response;
            refresh_token := data_refresh_token response;
            expires_at :=
              Some (js_add t (js_mul (data_expires_in response) 1000)) |} in
       saveTokens newTokens)
    (fun error => throw error).

(** Evaluating an identifier: a [ReferenceError] when nothing binds it. *)
Definition identifier (ident : string) : M unit :=
  if bound ident then ret tt else throw (ReferenceError ident).

Definition render (width height : Z) (configuration : ChartConfiguration)
  : M (list Byte.byte) := fun w =>
  match renderToBuffer E width height configuration with
  | inl e => (Throw e, w)
  | inr image => (Normal image, w)
  end.

(** *** Handlers *)

(** [const { property } = req.body], where [req.body] is [undefined]
    ([None]) or an object of which [value] is the property read. *)
Definition destructure (property : string) (body : option jsstring)
  : M jsstring :=
  match body with
  | Some value => ret value
  | None =>
      throw (TypeError ("Cannot destructure property '" +:+ property
                        +:+ "' of 'req.body' as it is undefined."))
  end.

(** [app.post('/auth/callback')] *)
Definition auth_callback (body : option jsstring) : M Response :=
  code <- destructure "code" body ;;
  try_catch
    (response <- post_token
       [("client_id", CLIENT_ID E);
        ("client_secret", CLIENT_SECRET E);
        ("code", code);
        ("grant_type", Some "authorization_code");
        ("redirect_uri", REDIRECT_URI E)] ;;
     t <- Date_now ;;
     let tokens :=
       {| access_token := data_access_token response;
          refresh_token := data_refresh_token response;
          expires_at :=
            Some (js_add t (js_mul (data_expires_in response) 1000)) |} in
     _ <- saveTokens tokens ;;
     ret (res_json (JObject [("message", JString "Authorization successful")])
            (res_status 200 res)))
    (fun error =>
       ret (res_json (error_body "Token exchange failed") (res_status 500 res))).

(** [app.get('/glucose')] *)
Definition glucose (startDate endDate : jsstring) : M Response :=
  let unauthorized :=
    ret (res_json (error_body "Not authorized. Please complete OAuth flow first.")
           (res_status 401 res)) in
  try_catch
    (tokens <- getTokens ;;
     match tokens with
     | None => unauthorized
     | Some tokens =>
         if negb (truthy (access_token tokens)) then unauthorized
         else
           t <- Date_now ;;
           tokens <- (if t >? ToNumber (expires_at tokens)
                      then refreshToken
                      else ret tokens) ;;
           records <- get_egvs ("Bearer " +:+ template (access_token tokens))
                        [("startDate", startDate); ("endDate", endDate)] ;;
           ret (res_json (JArray (map json_of_reading records)) res)
     end)
    (fun error =>
       ret (res_json
              (JObject [("error", JString "Failed to fetch glucose data");
                        ("details", details error)])
              (res_status 500 res))).

(** [app.post('/auth/refresh')] *)
Definition auth_refresh (body : option jsstring) : M Response :=
  _ <- destructure "refresh_token" body ;;
  try_catch
    (tokens <- refreshToken ;;
     t <- Date_now ;;
     ret (res_json
            (JObject [("access_token", json_string (access_token tokens));
                      ("refresh_token", json_string (refresh_token tokens));
                      ("expires_in",
                       json_number
                         (Number ((ToNumber (expires_at tokens) - t) / 1000)))])
            res))
    (fun error =>
       ret (res_json (error_body "Token refresh failed") (res_status 500 res))).

(** [app.get('/trends')] *)
Definition trends (startDate endDate : jsstring) : M Response :=
  let unauthorized :=
    ret (res_json (error_body "Not authorized") (res_status 401 res)) in
  try_catch
    (tokens <- getTokens ;;
     match tokens with
     | None => unauthorized
     | Some tokens =>
         if negb (truthy (access_token tokens)) then unauthorized
         else
           t <- Date_now ;;
           tokens <- (if t >? ToNumber (expires_at tokens)
                      then refreshToken
                      else ret tokens) ;;
           readings <- get_egvs ("Bearer " +:+ template (access_token tokens))
                         [("startDate", startDate); ("endDate", endDate)] ;;
           let values := map value readings in
           ret (res_json (json_of_analysis (analysis values)) res)
     end)
    (fun error =>
       ret (res_json (error_body "Failed to analyze trends") (res_status 500 res))).

(** [app.get('/charts')] *)
Definition charts (startDate endDate : jsstring) : M Response :=
  let unauthorized :=
    ret (res_json (error_body "Not authorized") (res_status 401 res)) in
  try_catch
    (tokens <- getTokens ;;
     match tokens with
     | None => unauthorized
     | Some tokens =>
         if negb (truthy (access_token tokens)) then unauthorized
         else
           t <- Date_now ;;
           tokens <- (if t >? ToNumber (expires_at tokens)
                      then refreshToken
                      else ret tokens) ;;
           readings <- get_egvs ("Bearer " +:+ template (access_token tokens))
                         [("startDate", startDate); ("endDate", endDate)] ;;
           _ <- identifier "ChartJSNodeCanvas" ;;
           let configuration :=
             {| chart_type := "line";
                labels := map (fun r => toLocaleTimeString E (systemTime r)) readings;
                dataset_label := "Glucose Readings";
                data := map value readings;
                borderColor := "rgb(75, 192, 192)";
                tension := 0x1.999999999999ap-4 (* 0.1 *) |} in
           image <- render 800 400 configuration ;;
           ret (res_send image (res_set "Content-Type" "image/png" res))
     end)
    (fun error =>
       ret (res_json (error_body "Failed to generate chart") (res_status 500 res))).

(** *** The route table *)

(** A POST comes with a body object, of which the handler reads [code]
    (the body of [/auth/refresh] is not used further), or, when the body
    parser has left [req.body] undefined, without one. *)
Inductive Request :=
| POST_auth_callback (code : jsstring)
| GET_glucose (startDate endDate : jsstring)
| POST_auth_refresh
| GET_trends (startDate endDate : jsstring)
| GET_charts (startDate endDate : jsstring)
| POST_auth_callback_without_body
| POST_auth_refresh_without_body.

Definition serve (req : Request) : M Response :=
  match req with
  | POST_auth_callback code => auth_callback (Some code)
  | GET_glucose startDate endDate => glucose startDate endDate
  | POST_auth_refresh => auth_refresh (Some None)
  | GET_trends startDate endDate => trends startDate endDate
  | GET_charts startDate endDate => charts startDate endDate
  | POST_auth_callback_without_body => auth_callback None
  | POST_auth_refresh_without_body => auth_refresh None
  end.

(** Requests served one after the other; the responses in order.  An
    exception that escapes a handler is answered by Express, outside
    [server.js], and leaves no response here. *)
Fixpoint serve_all (reqs : list Request) (w : World) : list Response * World :=
  match reqs with
  | [] => ([], w)
  | req :: rest =>
      let '(c, w1) := serve req w in
      let '(rs, w2) := serve_all rest w1 in
      (match c with Normal r => r :: rs | Throw _ => rs end, w2)
  end.

End Server.

(** ** Observations on a run *)

(** The three handlers that fetch data from the upstream API. *)
Definition data_fetch : list (Env -> jsstring -> jsstring -> M Response) :=
  [glucose; trends; charts].

(** The parameters [refreshToken] posts for a stored refresh token. *)
Definition refresh_params (E : Env) (stored : jsstring) : Params :=
  [("client_id", CLIENT_ID E);
   ("client_secret", CLIENT_SECRET E);
   ("refresh_token", stored);
   ("grant_type", Some "refresh_token")].

(** The calls a computation adds to the history when run from [w]. *)
Definition trace {A} (m : M A) (w : World) : list Call :=
  drop (length (calls w)) (calls (snd (m w))).

Definition is_refresh (c : Call) : bool :=
  match c with refreshToken_called => true | _ => false end.

Definition is_exchange (c : Call) : bool :=
  match c with axios_post _ _ => true | _ => false end.

Definition is_data_call (c : Call) : bool :=
  match c with axios_get _ _ _ => true | _ => false end.

Definition is_save (c : Call) : bool :=
  match c with pool_query (UPSERT _) => true | _ => false end.

(** How many calls of a kind a trace holds. *)
Fixpoint times (p : Call -> bool) (l : list Call) : nat :=
  match l with
  | [] => 0
  | c :: rest => (if p c then 1 else 0) + times p rest
  end%nat.

(** The part of a trace that precedes the first upstream data call (the whole
    trace when there is none). *)
Fixpoint before_data_call (l : list Call) : list Call :=
  match l with
  | [] => []
  | c :: rest => if is_data_call c then [] else c :: before_data_call rest
  end.

(** The table holds no row other than the one with key 1. *)
Definition one_row (w : World) : Prop := dom (db_tokens w) ⊆ {[ 1 ]}.

(** A computation that keeps [one_row]. *)
Definition keeps {A} (m : M A) : Prop :=
  forall w, one_row w -> one_row (snd (m w)).

(** ** Scenarios

    Concrete environments and stores on which the statements below are
    exercised. *)

Definition fresh_pair : TokenResponse :=
  {| data_access_token := Some "access-2";
     data_refresh_token := Some "refresh-2";
     data_expires_in := 7200 |}.

Definition sample_readings : list Reading :=
  [ {| systemTime := "2024-01-01T08:00:00"; value := 100 |};
    {| systemTime := "2024-01-01T08:05:00"; value := 150 |};
    {| systemTime := "2024-01-01T08:10:00"; value := 200 |} ].

(** Everything works: the clock reads 1000000 ms, the database accepts every
    statement, the token endpoint issues [fresh_pair], the data endpoint
    returns [sample_readings], the renderer returns a one-byte image. *)
Definition healthy : Env :=
  {| CLIENT_ID := Some "client";
     CLIENT_SECRET := Some "secret";
     REDIRECT_URI := Some "https://example.org/callback";
     now := fun _ => 1000000;
     pg_error := fun _ _ => None;
     oauth2_token := fun _ _ => inr fresh_pair;
     egvs := fun _ _ _ => inr sample_readings;
     toLocaleTimeString := fun t => t;
     renderToBuffer := fun _ _ _ => inr [Byte.x89] |}.

(** As [healthy], but the data endpoint has no reading in the range. *)
Definition no_readings : Env :=
  {| CLIENT_ID := CLIENT_ID healthy;
     CLIENT_SECRET := CLIENT_SECRET healthy;
     REDIRECT_URI := REDIRECT_URI healthy;
     now := now healthy;
     pg_error := pg_error healthy;
     oauth2_token := oauth2_token healthy;
     egvs := fun _ _ _ => inr [];
     toLocaleTimeString := toLocaleTimeString healthy;
     renderToBuffer := renderToBuffer healthy |}.

(** As [healthy], but the token endpoint rejects every exchange. *)
Definition exchange_down : Env :=
  {| CLIENT_ID := CLIENT_ID healthy;
     CLIENT_SECRET := CLIENT_SECRET healthy;
     REDIRECT_URI := REDIRECT_URI healthy;
     now := now healthy;
     pg_error := pg_error healthy;
     oauth2_token := fun _ _ =>
       inl {| name := "AxiosError";
              message := "Request failed with status code 400";
              response_data := Some (JObject [("error", JString "invalid_grant")]) |};
     egvs := egvs healthy;
     toLocaleTimeString := toLocaleTimeString healthy;
     renderToBuffer := renderToBuffer healthy |}.

Definition valid_tokens : Tokens :=
  {| access_token := Some "access-1";
     refresh_token := Some "refresh-1";
     expires_at := Some 2000000 |}.

Definition expired_tokens : Tokens :=
  {| access_token := Some "access-1";
     refresh_token := Some "refresh-1";
     expires_at := Some 500000 |}.

Definition expired_without_refresh : Tokens :=
  {| access_token := Some "access-1";
     refresh_token := None;
     expires_at := Some 500000 |}.

Definition empty_store : World := {| db_tokens := ∅; calls := [] |}.

Definition store_with (t : Tokens) : World :=
  {| db_tokens := {[ 1 := t ]}; calls := [] |}.

(** ** Further observations *)

(** The parameters [/auth/callback] posts for an authorization code. *)
Definition callback_params (E : Env) (code : jsstring) : Params :=
  [("client_id", CLIENT_ID E);
   ("client_secret", CLIENT_SECRET E);
   ("code", code);
   ("grant_type", Some "authorization_code");
   ("redirect_uri", REDIRECT_URI E)].

(** The record that both exchanges build from an answer of the token
    endpoint when the clock reads [t]; its expiry is the sum that lines 109
    and 137 compute on doubles. *)
Definition issued (response : TokenResponse) (t : Z) : Tokens :=
  {| access_token := data_access_token response;
     refresh_token := data_refresh_token response;
     expires_at := Some (js_add t (js_mul (data_expires_in response) 1000)) |}.

(** The upstream data call of a handler that holds the record [t]. *)
Definition data_call (t : Tokens) (startDate endDate : jsstring) : Call :=
  axios_get egvs_url ("Bearer " +:+ template (access_token t))
    [("startDate", startDate); ("endDate", endDate)].

(** *** The objects of a round trip through pg

    The values of the properties the program writes and reads. *)
Inductive Js :=
| js_undefined
| js_null
| js_string (s : string)
| js_number (n : Z).

Definition Object := list (string * Js).

(** [o.k] *)
Fixpoint property (k : string) (o : Object) : Js :=
  match o with
  | [] => js_undefined
  | (k', v) :: rest => if String.eqb k k' then v else property k rest
  end.






(** The three fixed responses of the two [/auth] routes. *)
Definition callback_ok : Response :=
  res_json (JObject [("message", JString "Authorization successful")])
    (res_status 200 res).

Definition callback_failed : Response :=
  res_json (error_body "Token exchange failed") (res_status 500 res).

Definition refresh_failed : Response :=
  res_json (error_body "Token refresh failed") (res_status 500 res).




(** What a run may do to the table: rows other than the one with key 1 are
    as they were, and the row with key 1 is not removed. *)
Definition evolves (w w' : World) : Prop :=
  (forall k, k <> 1 -> db_tokens w' !! k = db_tokens w !! k) /\
  (is_Some (db_tokens w !! 1) -> is_Some (db_tokens w' !! 1)).

(** A computation every run of which is in the relation [R]. *)
Definition respects (R : World -> World -> Prop) {A} (m : M A) : Prop :=
  forall w, R w (snd (m w)).

(** As [healthy], but the token endpoint issues an access token without a
    refresh token. *)
Definition no_rotation : Env :=
  {| CLIENT_ID := CLIENT_ID healthy;
     CLIENT_SECRET := CLIENT_SECRET healthy;
     REDIRECT_URI := REDIRECT_URI healthy;
     now := now healthy;
     pg_error := pg_error healthy;
     oauth2_token := fun _ _ =>
       inr {| data_access_token := Some "access-2";
              data_refresh_token := None;
              data_expires_in := 7200 |};
     egvs := egvs healthy;
     toLocaleTimeString := toLocaleTimeString healthy;
     renderToBuffer := renderToBuffer healthy |}.

(** As [healthy], but every call made takes 400 ms of the clock. *)
Definition ticking : Env :=
  {| CLIENT_ID := CLIENT_ID healthy;
     CLIENT_SECRET := CLIENT_SECRET healthy;
     REDIRECT_URI := REDIRECT_URI healthy;
     now := fun history => 1000000 + 400 * Z.of_nat (length history);
     pg_error := pg_error healthy;
     oauth2_token := oauth2_token healthy;
     egvs := egvs healthy;
     toLocaleTimeString := toLocaleTimeString healthy;
     renderToBuffer := renderToBuffer healthy |}.

(** As [healthy], but the data endpoint refuses every request. *)
Definition data_down : Env :=
  {| CLIENT_ID := CLIENT_ID healthy;
     CLIENT_SECRET := CLIENT_SECRET healthy;
     REDIRECT_URI := REDIRECT_URI healthy;
     now := now healthy;
     pg_error := pg_error healthy;
     oauth2_token := oauth2_token healthy;
     egvs := fun _ _ _ =>
       inl {| name := "AxiosError";
              message := "Request failed with status code 401";
              response_data := Some (JObject [("fault", JString "invalid token")]) |};
     toLocaleTimeString := toLocaleTimeString healthy;
     renderToBuffer := renderToBuffer healthy |}.

(** As [healthy], but the database rejects every statement. *)
Definition database_down : Env :=
  {| CLIENT_ID := CLIENT_ID healthy;
     CLIENT_SECRET := CLIENT_SECRET healthy;
     REDIRECT_URI := REDIRECT_URI healthy;
     now := now healthy;
     pg_error := fun _ _ => Some (Error "connection terminated");
     oauth2_token := oauth2_token healthy;
     egvs := egvs healthy;
     toLocaleTimeString := toLocaleTimeString healthy;
     renderToBuffer := renderToBuffer healthy |}.

(** A table that, besides the token record, holds a row the program did
    not write. *)
Definition store_with_stray_row : World :=
  {| db_tokens := {[ 1 := expired_tokens; 2 := valid_tokens ]}; calls := [] |}.

(** * Verification *)

(** ** The JavaScript primitives on small inputs *)

Example truthy_values :
  truthy None = false /\ truthy (Some "") = false /\ truthy (Some "a") = true.
Proof. repeat split. Qed.

Example Math_max_of_nothing : Math_max [] = neg_infinity.
Proof. reflexivity. Qed.

Example Math_min_of_nothing : Math_min [] = infinity.
Proof. reflexivity. Qed.

Example Math_max_signed_zeros :
  is_pos_zero (Math_max [-0; 0]%float) = true /\
  is_pos_zero (Math_max [0; -0]%float) = true /\
  is_neg_zero (Math_min [0; -0]%float) = true.
Proof. repeat split. Qed.

Example Math_max_NaN : is_nan (Math_max [1; nan; 3]%float) = true.
Proof. reflexivity. Qed.

Example average_of_two : average (analysis [100; 101]%float) = 100.5%float.
Proof. reflexivity. Qed.

Example Number_of_length : Number 3 = 3%float /\ Number 0 = 0%float.
Proof. split; reflexivity. Qed.

(** ** Doubles that hold integers *)

Example double_rounds_to_even :
  double (2 ^ 53 + 1) = 2 ^ 53 /\
  double (2 ^ 53 + 3) = 2 ^ 53 + 4 /\
  double (- (2 ^ 53 + 3)) = - (2 ^ 53 + 4) /\
  double 9007199255741001 = 9007199255741000 /\
  double (2 ^ 63 - 1) = 2 ^ 63.
Proof. repeat split. Qed.

(** The same sums on primitive doubles. *)
Example primitive_doubles_round_alike :
  (9007199254740992 + 1 = 9007199254740992)%float /\
  (9007199254740992 + 3 = 9007199254740996)%float /\
  js_add 9007199254740992 1 = 9007199254740992 /\
  js_add 9007199254740992 3 = 9007199254740996.
Proof. repeat split. Qed.

Example overflow_is_not_finite :
  js_mul (2 ^ 1000) (2 ^ 1000) = not_finite /\
  js_add (js_mul (2 ^ 1000) (2 ^ 1000)) (- 5) = not_finite /\
  int8 (Some not_finite) = false.
Proof. repeat split. Qed.

Lemma pow53_lt_pow1024 : 2 ^ 53 < 2 ^ 1024.
Proof. reflexivity. Qed.

Lemma double_safe (z : Z) : safe_integer z -> double z = z.
Proof.
  unfold safe_integer, double, round53. intros Hz.
  pose proof pow53_lt_pow1024 as Hlt.
  assert (Habs : Z.abs z <= 2 ^ 53) by lia.
  apply Z.leb_le in Habs. rewrite Habs.
  assert (Hfin : (2 ^ 1024 <=? Z.abs z) = false) by (apply Z.leb_gt; lia).
  rewrite Hfin. lia.
Qed.

Lemma finite_safe (z : Z) : safe_integer z -> finite z = true.
Proof.
  unfold safe_integer, finite. intros Hz.
  pose proof pow53_lt_pow1024 as Hlt. apply Z.ltb_lt. lia.
Qed.

(** Within the safe integers the sum and the product are exact. *)
Lemma js_add_safe (a b : Z) :
  safe_integer a -> safe_integer b -> safe_integer (a + b) ->
  js_add a b = a + b.
Proof.
  intros Ha Hb Hab. unfold js_add.
  rewrite (double_safe a Ha), (double_safe b Hb).
  rewrite (finite_safe a Ha), (finite_safe b Hb). cbn.
  apply double_safe, Hab.
Qed.

Lemma js_mul_safe (a b : Z) :
  safe_integer a -> safe_integer b -> safe_integer (a * b) ->
  js_mul a b = a * b.
Proof.
  intros Ha Hb Hab. unfold js_mul.
  rewrite (double_safe a Ha), (double_safe b Hb).
  rewrite (finite_safe a Ha), (finite_safe b Hb). cbn.
  apply double_safe, Hab.
Qed.

(** The expiry both exchanges compute, within the safe integers. *)
Lemma expiry_safe (t lifetime : Z) :
  safe_integer t -> safe_integer (lifetime * 1000) ->
  safe_integer (t + lifetime * 1000) ->
  js_add t (js_mul lifetime 1000) = t + lifetime * 1000.
Proof.
  intros Ht Hl Hsum.
  assert (Hlife : safe_integer lifetime) by (unfold safe_integer in *; lia).
  assert (H1000 : safe_integer 1000) by (unfold safe_integer; lia).
  rewrite (js_mul_safe lifetime 1000 Hlife H1000 Hl).
  apply js_add_safe; assumption.
Qed.

(** A safe integer fits a BIGINT column. *)
Lemma int8_safe (z : Z) : safe_integer z -> int8 (Some z) = true.
Proof.
  unfold safe_integer, int8. intros Hz.
  apply andb_true_intro. split; [apply Z.leb_le|apply Z.ltb_lt]; lia.
Qed.

(** ** Running the token management functions *)

Lemma eta_Tokens (t : Tokens) :
  {| access_token := access_token t;
     refresh_token := refresh_token t;
     expires_at := expires_at t |} = t.
Proof. destruct t; reflexivity. Qed.

Lemma saveTokens_run (E : Env) (tokenData : Tokens) (w : World) :
  saveTokens E tokenData w =
  let w' := log (pool_query (UPSERT tokenData)) w in
  match pg_error E (calls w) (UPSERT tokenData) with
  | Some e => (Throw e, w')
  | None =>
      if int8 (expires_at tokenData)
      then (Normal tokenData,
            {| db_tokens := <[1 := tokenData]> (db_tokens w); calls := calls w' |})
      else (Throw (Error "value out of range for type bigint"), w')
  end.
Proof.
  unfold saveTokens, try_catch, bind, query_upsert, ret, throw.
  rewrite eta_Tokens. cbn.
  destruct (pg_error E (calls w) (UPSERT tokenData)); [reflexivity|].
  destruct (int8 (expires_at tokenData)); reflexivity.
Qed.

Lemma getTokens_run (E : Env) (w : World) :
  getTokens E w =
  match pg_error E (calls w) SELECT with
  | Some e => (Throw e, log (pool_query SELECT) w)
  | None => (Normal (db_tokens w !! 1), log (pool_query SELECT) w)
  end.
Proof.
  unfold getTokens, try_catch, bind, query_select, ret, throw. cbn.
  destruct (pg_error E (calls w) SELECT); reflexivity.
Qed.

(** A save that returns has written exactly the record it was given. *)
Lemma saveTokens_Normal (E : Env) (tokenData stored : Tokens) (w w1 : World) :
  saveTokens E tokenData w = (Normal stored, w1) ->
  stored = tokenData /\
  db_tokens w1 = <[1 := tokenData]> (db_tokens w) /\
  calls w1 = calls w ++ [pool_query (UPSERT tokenData)].
Proof.
  rewrite saveTokens_run. cbn.
  destruct (pg_error E (calls w) (UPSERT tokenData)); [discriminate|].
  destruct (int8 (expires_at tokenData)); [|discriminate].
  intros H; inversion H; subst; cbn. auto.
Qed.


Lemma refreshToken_run (E : Env) (w : World) :
  refreshToken E w =
  let w0 := log refreshToken_called w in
  let w1 := log (pool_query SELECT) w0 in
  match pg_error E (calls w0) SELECT with
  | Some e => (Throw e, w1)
  | None =>
      let stored := db_tokens w !! 1 ≫= refresh_token in
      if truthy stored then
        let params := refresh_params E stored in
        let w2 := log (axios_post token_url params) w1 in
        match oauth2_token E (calls w1) params with
        | inl e => (Throw e, w2)
        | inr response =>
            saveTokens E
              {| access_token := data_access_token response;
                 refresh_token := data_refresh_token response;
                 expires_at :=
                   Some (js_add (now E (calls w2))
                           (js_mul (data_expires_in response) 1000)) |}
              w2
        end
      else (Throw (Error "No refresh token available"), w1)
  end.
Proof.
  unfold refreshToken, refresh_params, try_catch, bind. cbn zeta.
  rewrite getTokens_run. cbn.
  destruct (pg_error E _ SELECT); [reflexivity|].
  destruct (truthy _); cbn; [|reflexivity].
  unfold post_token. cbn.
  destruct (oauth2_token E _ _); [reflexivity|]. cbn.
  destruct (saveTokens E _ _) as [[a|e] w']; reflexivity.
Qed.


(** ** C9: round trip through the store *)





(** ** C8: a single record *)

Section Keeps.

Variable E : Env.

Lemma keeps_ret {A} (a : A) : keeps (ret a).
Proof. intros w Hw; exact Hw. Qed.

Lemma keeps_throw {A} (e : Exn) : keeps (@throw A e).
Proof. intros w Hw; exact Hw. Qed.

Lemma keeps_bind {A B} (m : M A) (k : A -> M B) :
  keeps m -> (forall a, keeps (k a)) -> keeps (bind m k).
Proof.
  intros Hm Hk w Hw. unfold bind.
  specialize (Hm w Hw). destruct (m w) as [[a|e] w']; cbn in *.
  - apply Hk, Hm.
  - exact Hm.
Qed.

Lemma keeps_try_catch {A} (m : M A) (handler : Exn -> M A) :
  keeps m -> (forall e, keeps (handler e)) -> keeps (try_catch m handler).
Proof.
  intros Hm Hh w Hw. unfold try_catch.
  specialize (Hm w Hw). destruct (m w) as [[a|e] w']; cbn in *.
  - exact Hm.
  - apply Hh, Hm.
Qed.

Lemma keeps_Date_now : keeps (Date_now E).
Proof. intros w Hw; exact Hw. Qed.

Lemma keeps_query_select : keeps (query_select E).
Proof.
  intros w Hw. unfold query_select.
  destruct (pg_error E (calls w) SELECT); exact Hw.
Qed.

Lemma keeps_query_upsert (values : Tokens) : keeps (query_upsert E values).
Proof.
  intros w Hw. unfold query_upsert.
  destruct (pg_error E (calls w) (UPSERT values)); [exact Hw|].
  destruct (int8 (expires_at values)); [|exact Hw].
  unfold one_row in *; cbn. rewrite dom_insert_L.
  apply union_least; [reflexivity|exact Hw].
Qed.

Lemma keeps_post_token (params : Params) : keeps (post_token E params).
Proof.
  intros w Hw. unfold post_token.
  destruct (oauth2_token E (calls w) params); exact Hw.
Qed.

Lemma keeps_get_egvs (authorization : string) (params : Params) :
  keeps (get_egvs E authorization params).
Proof.
  intros w Hw. unfold get_egvs.
  destruct (egvs E (calls w) authorization params); exact Hw.
Qed.

Lemma keeps_render (width height : Z) (c : ChartConfiguration) :
  keeps (render E width height c).
Proof.
  intros w Hw. unfold render.
  destruct (renderToBuffer E width height c); exact Hw.
Qed.

Lemma keeps_identifier (ident : string) : keeps (identifier ident).
Proof.
  unfold identifier. destruct (bound ident); [apply keeps_ret|apply keeps_throw].
Qed.

Lemma keeps_mark (c : Call) : keeps (fun w => (Normal tt, log c w)).
Proof. intros w Hw; exact Hw. Qed.

(** Splits a computation along its binds, handlers and branches. *)
Ltac keeps_step :=
  first
    [ apply keeps_ret | apply keeps_throw | apply keeps_Date_now
    | apply keeps_query_select | apply keeps_query_upsert
    | apply keeps_post_token | apply keeps_get_egvs | apply keeps_render
    | apply keeps_identifier | apply keeps_mark
    | assumption
    | apply keeps_bind; [|intros ?]
    | apply keeps_try_catch; [|intros ?]
    | match goal with
      | |- keeps (if ?b then _ else _) => destruct b
      | |- keeps (match ?x with Some _ => _ | None => _ end) => destruct x
      end ].

Lemma keeps_saveTokens (tokenData : Tokens) : keeps (saveTokens E tokenData).
Proof. unfold saveTokens; cbv zeta. repeat keeps_step. Qed.

Lemma keeps_getTokens : keeps (getTokens E).
Proof. unfold getTokens. repeat keeps_step. Qed.

Lemma keeps_refreshToken : keeps (refreshToken E).
Proof.
  pose proof keeps_getTokens. pose proof keeps_saveTokens.
  unfold refreshToken. repeat keeps_step.
Qed.

Lemma keeps_serve (req : Request) : keeps (serve E req).
Proof.
  pose proof keeps_getTokens. pose proof keeps_saveTokens.
  pose proof keeps_refreshToken.
  destruct req; cbn [serve];
    unfold auth_callback, glucose, auth_refresh, trends, charts; cbv zeta;
    repeat keeps_step.
Qed.

Lemma serve_all_one_row (reqs : list Request) (w : World) :
  one_row w -> one_row (snd (serve_all E reqs w)).
Proof.
  revert w. induction reqs as [|req rest IH]; intros w Hw; cbn; [exact Hw|].
  pose proof (keeps_serve req w Hw) as H1.
  destruct (serve E req w) as [c w1]; cbn in H1.
  specialize (IH w1 H1).
  destruct (serve_all E rest w1) as [rs w2]; exact IH.
Qed.

End Keeps.

Lemma one_row_size (w : World) : one_row w -> (size (db_tokens w) <= 1)%nat.
Proof.
  unfold one_row. intros H.
  rewrite <- size_dom. apply subseteq_size in H.
  by rewrite size_singleton in H.
Qed.

Lemma one_row_insert (w : World) (t : Tokens) :
  one_row w -> <[1 := t]> (db_tokens w) = {[ 1 := t ]}.
Proof.
  unfold one_row. intros H. apply map_eq. intros i.
  destruct (decide (i = 1)) as [->|Hne].
  - by rewrite lookup_insert_eq, lookup_singleton_eq.
  - rewrite lookup_insert_ne, lookup_singleton_ne by done.
    apply not_elem_of_dom. set_solver.
Qed.

(** C8. Whatever requests are served, one after the other, on a store that
    holds at most the record with identity 1 (an empty table in particular),
    the store afterwards still holds at most that one record; and a token
    save that succeeds then leaves exactly one record, the one just saved:
    it replaces the record in place. *)
Theorem single_token_record
    (E : Env) (reqs : list Request) (w : World) :
  one_row w ->
  let w' := snd (serve_all E reqs w) in
  one_row w' /\
  (size (db_tokens w') <= 1)%nat /\
  forall tokenData stored w'',
    saveTokens E tokenData w' = (Normal stored, w'') ->
    db_tokens w'' = {[ 1 := tokenData ]} /\ size (db_tokens w'') = 1%nat.
Proof.
  intros Hw w'.
  assert (Hw' : one_row w') by (apply serve_all_one_row, Hw).
  split; [exact Hw'|]. split; [apply one_row_size, Hw'|].
  intros tokenData stored w'' Hsave.
  apply saveTokens_Normal in Hsave as (_ & Hdb & _).
  rewrite Hdb, (one_row_insert _ _ Hw').
  split; [reflexivity|apply map_size_singleton].
Qed.

Lemma single_token_record_witness :
  let w' := snd (serve_all healthy
                   [POST_auth_callback (Some "code-1"); POST_auth_refresh;
                    GET_glucose None None; POST_auth_callback (Some "code-2")]
                   empty_store) in
  one_row w' /\
  (size (db_tokens w') <= 1)%nat /\
  forall tokenData stored w'',
    saveTokens healthy tokenData w' = (Normal stored, w'') ->
    db_tokens w'' = {[ 1 := tokenData ]} /\ size (db_tokens w'') = 1%nat.
Proof.
  apply (single_token_record healthy).
  unfold one_row, empty_store; cbn. rewrite dom_empty_L. set_solver.
Defined.

(** ** C6: no stored token *)

(** C6. A [GET /glucose] request served when the table has no token record
    (and the database answers the select) gets status 401 with an error
    body; nothing is asked of the upstream API. *)
Theorem glucose_without_record_401
    (E : Env) (startDate endDate : jsstring) (w : World) :
  db_tokens w !! 1 = None ->
  pg_error E (calls w) SELECT = None ->
  exists r,
    glucose E startDate endDate w = (Normal r, log (pool_query SELECT) w) /\
    status r = 401 /\
    status r <> 500 /\
    body r = Some (json (error_body
                           "Not authorized. Please complete OAuth flow first.")).
Proof.
  intros Hrow Hsel.
  eexists. split.
  - unfold glucose, try_catch, bind. rewrite getTokens_run, Hsel, Hrow.
    reflexivity.
  - cbn. repeat split; discriminate.
Qed.

Lemma glucose_without_record_401_witness :
  exists r,
    glucose healthy (Some "2024-01-01") (Some "2024-01-02") empty_store
      = (Normal r, log (pool_query SELECT) empty_store) /\
    status r = 401 /\
    status r <> 500 /\
    body r = Some (json (error_body
                           "Not authorized. Please complete OAuth flow first.")).
Proof.
  apply (glucose_without_record_401 healthy); reflexivity.
Defined.

(** Each data-fetch handler answers 401 when the row, or its access token,
    is missing. *)
Lemma missing_access_token_401
    (E : Env) (h : Env -> jsstring -> jsstring -> M Response)
    (startDate endDate : jsstring) (w : World) :
  In h data_fetch ->
  pg_error E (calls w) SELECT = None ->
  truthy (db_tokens w !! 1 ≫= access_token) = false ->
  exists r,
    h E startDate endDate w = (Normal r, log (pool_query SELECT) w) /\
    status r = 401.
Proof.
  intros Hh Hsel Hacc.
  assert (Hcases : h = glucose \/ h = trends \/ h = charts)
    by (unfold data_fetch in Hh; cbn in Hh; intuition).
  destruct Hcases as [-> | [-> | ->]];
    unfold glucose, trends, charts, try_catch, bind;
    rewrite getTokens_run, Hsel;
    (destruct (db_tokens w !! 1) as [t|]; cbn in Hacc |- *;
     [rewrite Hacc|]; eexists; split; reflexivity).
Qed.

(** ** C7 and C1: the trend statistics *)

(** C7. On the values 100, 150, 200 the trends computation gives average
    150, highest 200, lowest 100 and count 3, and the handler sends exactly
    these four numbers. *)
Theorem analysis_100_150_200 :
  analysis [100; 150; 200]%float =
    {| average := 150; highest := 200; lowest := 100; count := 3 |} /\
  json_of_analysis (analysis [100; 150; 200]%float) =
    JObject [("average", JNumber 150); ("highest", JNumber 200);
             ("lowest", JNumber 100); ("count", JNumber 3)] /\
  fst (trends healthy None None (store_with valid_tokens)) =
    Normal (res_json
              (JObject [("average", JNumber 150); ("highest", JNumber 200);
                        ("lowest", JNumber 100); ("count", JNumber 3)])
              res).
Proof. repeat split; vm_compute; reflexivity. Qed.

(** C1. On an empty list of readings nothing guards the computation: the
    average is [0 / 0], that is NaN, the highest is [Math.max()], that is
    -Infinity, and the lowest is [Math.min()], that is +Infinity; the handler
    answers 200 and the three are serialised as [null]. *)
Theorem analysis_of_no_reading :
  analysis [] =
    {| average := nan; highest := neg_infinity; lowest := infinity;
       count := 0 |} /\
  is_nan (average (analysis [])) = true /\
  fst (trends no_readings None None (store_with valid_tokens)) =
    Normal (res_json
              (JObject [("average", JNull); ("highest", JNull);
                        ("lowest", JNull); ("count", JNumber 0)])
              res).
Proof. repeat split; vm_compute; reflexivity. Qed.

(** ** C2: the chart *)

Lemma ChartJSNodeCanvas_unbound : bound "ChartJSNodeCanvas" = false.
Proof. reflexivity. Qed.

(** Whatever the environment answers, [GET /charts] never gets as far as
    rendering: it answers 401 or 500, always with a JSON body. *)
Lemma charts_never_sends_image
    (E : Env) (startDate endDate : jsstring) (w : World) :
  exists r w' j,
    charts E startDate endDate w = (Normal r, w') /\
    (status r = 401 \/ status r = 500) /\
    body r = Some (json j).
Proof.
  unfold charts, try_catch, bind, ret, throw, Date_now, get_egvs, identifier.
  cbv zeta. rewrite getTokens_run.
  destruct (pg_error E (calls w) SELECT); [cbn; eauto 10|].
  destruct (db_tokens w !! 1) as [t|]; [|cbn; eauto 10].
  destruct (truthy (access_token t)); [|cbn; eauto 10]. cbn [negb].
  destruct (_ >? _).
  - destruct (refreshToken E _) as [[t'|err] w1]; [|cbn; eauto 10].
    destruct (egvs E _ _ _); cbn; eauto 10.
  - destruct (egvs E _ _ _); cbn; eauto 10.
Qed.

(** C2. With a stored, unexpired token and readings returned by the upstream
    API, [GET /charts] stops at [new ChartJSNodeCanvas], an identifier that
    nothing binds, and answers 500 with a JSON error body; no image is
    sent. *)
Theorem charts_valid_token_500 :
  db_tokens (store_with valid_tokens) !! 1 = Some valid_tokens /\
  ToNumber (expires_at valid_tokens) > now healthy [pool_query SELECT] /\
  egvs healthy [pool_query SELECT] "Bearer access-1"
    [("startDate", None); ("endDate", None)] = inr sample_readings /\
  fst (charts healthy None None (store_with valid_tokens)) =
    Normal (res_json (error_body "Failed to generate chart")
              (res_status 500 res)).
Proof. repeat split; vm_compute; reflexivity. Qed.

(** ** C5 and C10: the token refresher *)

(** C5. When a refresh token is stored, the upstream exchange answers with a
    token pair and a lifetime of [data_expires_in] seconds, and the database
    accepts the two statements, [refreshToken] returns the record made of the
    new pair and of the clock reading taken after the exchange plus 1000
    times the lifetime; the row with key 1 is overwritten with that very
    record.  The clock reading, the lifetime in milliseconds and their sum
    are safe integers, so that the doubles of line 109 hold them exactly. *)
Theorem refreshToken_success
    (E : Env) (w : World) (t : Tokens) (response : TokenResponse) :
  let h0 := calls w ++ [refreshToken_called] in
  let h1 := h0 ++ [pool_query SELECT] in
  let params := refresh_params E (refresh_token t) in
  let h2 := h1 ++ [axios_post token_url params] in
  let newTokens :=
    {| access_token := data_access_token response;
       refresh_token := data_refresh_token response;
       expires_at := Some (now E h2 + data_expires_in response * 1000) |} in
  pg_error E h0 SELECT = None ->
  db_tokens w !! 1 = Some t ->
  truthy (refresh_token t) = true ->
  oauth2_token E h1 params = inr response ->
  safe_integer (now E h2) ->
  safe_integer (data_expires_in response * 1000) ->
  safe_integer (now E h2 + data_expires_in response * 1000) ->
  pg_error E h2 (UPSERT newTokens) = None ->
  exists w',
    refreshToken E w = (Normal newTokens, w') /\
    db_tokens w' = <[1 := newTokens]> (db_tokens w) /\
    db_tokens w' !! 1 = Some newTokens /\
    calls w' = h2 ++ [pool_query (UPSERT newTokens)].
Proof.
  intros h0 h1 params h2 newTokens Hsel Hrow Hrt Hpost Hnow Hlife Hsum Hups.
  pose proof (int8_safe _ Hsum) as Hint.
  subst h0 h1 params h2 newTokens.
  eexists. split.
  - rewrite refreshToken_run. cbn zeta. cbn [calls log].
    rewrite Hsel, Hrow. cbn [mbind option_bind].
    rewrite Hrt, Hpost.
    rewrite (expiry_safe _ _ Hnow Hlife Hsum).
    rewrite saveTokens_run. cbn zeta. cbn [calls log expires_at].
    rewrite Hups, Hint. reflexivity.
  - cbn. repeat split. by rewrite lookup_insert_eq.
Qed.

Lemma refreshToken_success_witness :
  exists w',
    refreshToken healthy (store_with expired_tokens) =
      (Normal {| access_token := Some "access-2";
                 refresh_token := Some "refresh-2";
                 expires_at := Some (1000000 + 7200 * 1000) |}, w') /\
    db_tokens w' =
      <[1 := {| access_token := Some "access-2";
                refresh_token := Some "refresh-2";
                expires_at := Some (1000000 + 7200 * 1000) |}]>
        (db_tokens (store_with expired_tokens)) /\
    db_tokens w' !! 1 =
      Some {| access_token := Some "access-2";
              refresh_token := Some "refresh-2";
              expires_at := Some (1000000 + 7200 * 1000) |} /\
    calls w' =
      [refreshToken_called; pool_query SELECT;
       axios_post token_url (refresh_params healthy (Some "refresh-1"));
       pool_query (UPSERT {| access_token := Some "access-2";
                             refresh_token := Some "refresh-2";
                             expires_at := Some (1000000 + 7200 * 1000) |})].
Proof.
  apply (refreshToken_success healthy (store_with expired_tokens)
           expired_tokens fresh_pair);
    try reflexivity; unfold safe_integer; cbn; lia.
Defined.

(** Beyond the safe integers the expiry is the rounded sum: with a lifetime
    of 9007199254000 s read at clock 1741001 the record holds
    9007199255741000, not 9007199255741001. *)
Example expiry_is_rounded_beyond_the_safe_integers :
  js_add 1741001 (js_mul 9007199254000 1000) = 9007199255741000 /\
  (1741001 + 9007199254000 * 1000 = 9007199255741000)%float.
Proof. split; reflexivity. Qed.

(** C10. When no refresh token is stored, or when the upstream exchange
    answers with an error, [refreshToken] throws, the table is unchanged and
    no upsert has been sent to the database. *)
Theorem refreshToken_failure_keeps_store (E : Env) (w : World) :
  let h0 := calls w ++ [refreshToken_called] in
  let h1 := h0 ++ [pool_query SELECT] in
  let stored := db_tokens w !! 1 ≫= refresh_token in
  pg_error E h0 SELECT = None ->
  (truthy stored = false \/
   exists err, oauth2_token E h1 (refresh_params E stored) = inl err) ->
  exists err w',
    refreshToken E w = (Throw err, w') /\
    db_tokens w' = db_tokens w /\
    times is_save (trace (refreshToken E) w) = 0%nat.
Proof.
  intros h0 h1 stored Hsel Hcause.
  unfold trace. rewrite refreshToken_run. cbn zeta. cbn [calls log].
  fold h0. rewrite Hsel. fold stored. fold h1.
  destruct (truthy stored) eqn:Hrt.
  - destruct Hcause as [Hno | [err Herr]]; [discriminate|].
    rewrite Herr. do 2 eexists. split; [reflexivity|]. split; [reflexivity|].
    cbn [snd calls log]. subst h1 h0.
    rewrite <- !app_assoc, drop_app_length. reflexivity.
  - do 2 eexists. split; [reflexivity|]. split; [reflexivity|].
    cbn [snd calls log]. subst h1 h0.
    rewrite <- !app_assoc, drop_app_length. reflexivity.
Qed.

Lemma refreshToken_failure_keeps_store_witness :
  (exists err w',
     refreshToken healthy (store_with expired_without_refresh) = (Throw err, w') /\
     db_tokens w' = db_tokens (store_with expired_without_refresh) /\
     times is_save
       (trace (refreshToken healthy) (store_with expired_without_refresh)) = 0%nat) /\
  (exists err w',
     refreshToken exchange_down (store_with expired_tokens) = (Throw err, w') /\
     db_tokens w' = db_tokens (store_with expired_tokens) /\
     times is_save
       (trace (refreshToken exchange_down) (store_with expired_tokens)) = 0%nat).
Proof.
  split.
  - apply (refreshToken_failure_keeps_store healthy
             (store_with expired_without_refresh)); [reflexivity|].
    left; reflexivity.
  - apply (refreshToken_failure_keeps_store exchange_down
             (store_with expired_tokens)); [reflexivity|].
    right; eexists; reflexivity.
Defined.

(** ** C3 and C4: the data-fetch handlers *)

#[local] Arguments int8 : simpl never.

(** One case split on the next answer of the environment. *)
Ltac branch :=
  match goal with
  | |- context [match pg_error ?E ?h ?q with _ => _ end] =>
      destruct (pg_error E h q) eqn:?
  | |- context [match oauth2_token ?E ?h ?q with _ => _ end] =>
      destruct (oauth2_token E h q) eqn:?
  | |- context [match egvs ?E ?h ?a ?q with _ => _ end] =>
      destruct (egvs E h a q) eqn:?
  | |- context [match renderToBuffer ?E ?a ?b ?c with _ => _ end] =>
      destruct (renderToBuffer E a b c) eqn:?
  | |- context [if truthy ?x then _ else _] => destruct (truthy x) eqn:?
  | |- context [if int8 ?x then _ else _] => destruct (int8 x) eqn:?
  end.

(** Unfolds a handler down to the primitive effects. *)
Ltac run :=
  unfold glucose, trends, charts, try_catch, bind, ret, throw, Date_now,
    get_egvs, post_token, identifier, render;
  cbn beta iota zeta delta [fst snd calls db_tokens log negb].

(** Runs a data-fetch handler up to the expiry test, for a stored record
    with an access token. *)
Ltac load Hsel Hrow Hacc :=
  run; rewrite getTokens_run, Hsel, Hrow; cbn; rewrite Hacc; cbn.

Lemma data_fetch_cases (h : Env -> jsstring -> jsstring -> M Response) :
  In h data_fetch -> h = glucose \/ h = trends \/ h = charts.
Proof. unfold data_fetch. cbn. intuition. Qed.

(** When the stored refresh token is missing, [refreshToken] throws. *)
Lemma refreshToken_without_refresh_token (E : Env) (w : World) :
  pg_error E (calls w ++ [refreshToken_called]) SELECT = None ->
  truthy (db_tokens w !! 1 ≫= refresh_token) = false ->
  refreshToken E w =
    (Throw (Error "No refresh token available"),
     log (pool_query SELECT) (log refreshToken_called w)).
Proof.
  intros Hsel Hrt. rewrite refreshToken_run. cbn zeta. cbn [calls log].
  rewrite Hsel, Hrt. reflexivity.
Qed.

(** C3, as the code has it. A data-fetch request served with a stored access
    token whose expiry is past, when the refresh fails (whatever the reason:
    no refresh token stored, exchange refused, database error), is answered
    with status 500 and a JSON error body, not with 401. *)
Theorem expired_and_refresh_fails_500
    (E : Env) (h : Env -> jsstring -> jsstring -> M Response)
    (startDate endDate : jsstring) (w w1 : World) (t : Tokens) (err : Exn) :
  In h data_fetch ->
  pg_error E (calls w) SELECT = None ->
  db_tokens w !! 1 = Some t ->
  truthy (access_token t) = true ->
  now E (calls w ++ [pool_query SELECT]) > ToNumber (expires_at t) ->
  refreshToken E (log (pool_query SELECT) w) = (Throw err, w1) ->
  exists r j,
    h E startDate endDate w = (Normal r, w1) /\
    status r = 500 /\
    status r <> 401 /\
    body r = Some (json j).
Proof.
  intros Hh Hsel Hrow Hacc Hexp Hfail.
  apply Z.gt_lt, Z.gtb_lt in Hexp.
  destruct (data_fetch_cases h Hh) as [-> | [-> | ->]];
    load Hsel Hrow Hacc; rewrite Hexp, Hfail;
    do 2 eexists; (split; [reflexivity|]); cbn; repeat split; discriminate.
Qed.

Lemma expired_and_refresh_fails_500_witness :
  exists r j,
    trends healthy None None (store_with expired_without_refresh)
      = (Normal r,
         log (pool_query SELECT)
           (log refreshToken_called
              (log (pool_query SELECT) (store_with expired_without_refresh)))) /\
    status r = 500 /\
    status r <> 401 /\
    body r = Some (json j).
Proof.
  apply (expired_and_refresh_fails_500 healthy trends None None
           (store_with expired_without_refresh) _ expired_without_refresh
           (Error "No refresh token available")).
  - unfold data_fetch; cbn; auto.
  - reflexivity.
  - reflexivity.
  - reflexivity.
  - reflexivity.
  - apply refreshToken_without_refresh_token; reflexivity.
Defined.

(** C3, as the claim has it, fails: the stored record has an access token, a
    past expiry and no refresh token, the refresh cannot succeed, and each of
    the three data-fetch handlers answers 500. *)
Lemma expired_without_refresh_token_not_401 :
  let w := store_with expired_without_refresh in
  db_tokens w !! 1 = Some expired_without_refresh /\
  refresh_token expired_without_refresh = None /\
  now healthy [pool_query SELECT] > ToNumber (expires_at expired_without_refresh) /\
  (exists err w1,
     refreshToken healthy (log (pool_query SELECT) w) = (Throw err, w1)) /\
  (forall h, In h data_fetch ->
     exists r w1,
       h healthy None None w = (Normal r, w1) /\
       status r = 500 /\ status r <> 401).
Proof.
  cbv zeta. split; [reflexivity|]. split; [reflexivity|]. split; [reflexivity|].
  split.
  - do 2 eexists. apply refreshToken_without_refresh_token; reflexivity.
  - intros h Hh.
    destruct (data_fetch_cases h Hh) as [-> | [-> | ->]];
      do 2 eexists; (split; [reflexivity|]);
      (split; [reflexivity|discriminate]).
Qed.

(** C4. A data-fetch handler that finds a stored access token enters
    [refreshToken] exactly once, and before any upstream data call, when the
    clock is past the stored expiry; when the clock is not past it, the
    handler never enters [refreshToken], sends nothing to the token endpoint
    and makes its one data call. *)
Theorem refresh_exactly_when_expired
    (E : Env) (h : Env -> jsstring -> jsstring -> M Response)
    (startDate endDate : jsstring) (w : World) (t : Tokens) :
  In h data_fetch ->
  pg_error E (calls w) SELECT = None ->
  db_tokens w !! 1 = Some t ->
  truthy (access_token t) = true ->
  let tr := trace (h E startDate endDate) w in
  let t0 := now E (calls w ++ [pool_query SELECT]) in
  (t0 > ToNumber (expires_at t) ->
     times is_refresh tr = 1%nat /\
     times is_refresh (before_data_call tr) = 1%nat /\
     (times is_data_call tr <= 1)%nat) /\
  (t0 <= ToNumber (expires_at t) ->
     times is_refresh tr = 0%nat /\
     times is_exchange tr = 0%nat /\
     times is_data_call tr = 1%nat).
Proof.
  intros Hh Hsel Hrow Hacc tr t0.
  pose proof (data_fetch_cases h Hh) as Hcases.
  split; intros Hexp.
  - assert (Hgt : (t0 >? ToNumber (expires_at t)) = true)
      by (apply Z.gtb_lt; lia).
    subst tr t0.
    destruct Hcases as [-> | [-> | ->]].
    all: unfold trace; load Hsel Hrow Hacc; rewrite Hgt.
    all: rewrite refreshToken_run; cbn.
    all: repeat (branch; cbn; try rewrite saveTokens_run; cbn).
    all: rewrite <- ?app_assoc; rewrite drop_app_length; cbn.
    all: repeat split; lia.
  - assert (Hgt : (t0 >? ToNumber (expires_at t)) = false)
      by (rewrite Z.gtb_ltb; apply Z.ltb_ge; lia).
    subst tr t0.
    destruct Hcases as [-> | [-> | ->]].
    all: unfold trace; load Hsel Hrow Hacc; rewrite Hgt.
    all: repeat (branch; cbn).
    all: rewrite <- ?app_assoc; rewrite drop_app_length; cbn.
    all: repeat split; lia.
Qed.

Lemma refresh_exactly_when_expired_witness :
  (let tr := trace (glucose healthy None None) (store_with expired_tokens) in
   times is_refresh tr = 1%nat /\
   times is_refresh (before_data_call tr) = 1%nat /\
   (times is_data_call tr <= 1)%nat) /\
  (let tr := trace (charts healthy None None) (store_with valid_tokens) in
   times is_refresh tr = 0%nat /\
   times is_exchange tr = 0%nat /\
   times is_data_call tr = 1%nat).
Proof.
  split.
  - apply (refresh_exactly_when_expired healthy glucose None None
             (store_with expired_tokens) expired_tokens);
      [unfold data_fetch; cbn; auto | reflexivity ..].
  - apply (refresh_exactly_when_expired healthy charts None None
             (store_with valid_tokens) valid_tokens);
      [unfold data_fetch; cbn; auto | reflexivity | reflexivity | reflexivity |].
    cbn. discriminate.
Defined.

(** * Beyond the claims *)

(** ** The token management functions, continued *)

(** What a [refreshToken] that returns has done. *)
Lemma refreshToken_Normal (E : Env) (w w1 : World) (r : Tokens) :
  refreshToken E w = (Normal r, w1) ->
  let stored := db_tokens w !! 1 ≫= refresh_token in
  let h1 := (calls w ++ [refreshToken_called]) ++ [pool_query SELECT] in
  let h2 := h1 ++ [axios_post token_url (refresh_params E stored)] in
  exists response,
    truthy stored = true /\
    oauth2_token E h1 (refresh_params E stored) = inr response /\
    r = issued response (now E h2) /\
    db_tokens w1 = <[1 := r]> (db_tokens w) /\
    calls w1 = h2 ++ [pool_query (UPSERT r)].
Proof.
  rewrite refreshToken_run. cbn zeta. cbn [calls log].
  destruct (pg_error E _ SELECT); [discriminate|].
  destruct (truthy _) eqn:Hrt; [|discriminate].
  destruct (oauth2_token E _ _) as [err|response] eqn:Hpost; [discriminate|].
  intros Hsave. apply saveTokens_Normal in Hsave as (-> & Hdb & Hcalls).
  exists response. cbn [db_tokens calls log] in *. auto.
Qed.

(** ** [POST /auth/callback] *)

Lemma auth_callback_run (E : Env) (code : jsstring) (w : World) :
  auth_callback E (Some code) w =
  let params := callback_params E code in
  let w1 := log (axios_post token_url params) w in
  match oauth2_token E (calls w) params with
  | inl _ => (Normal callback_failed, w1)
  | inr response =>
      match saveTokens E (issued response (now E (calls w1))) w1 with
      | (Normal _, w2) => (Normal callback_ok, w2)
      | (Throw _, w2) => (Normal callback_failed, w2)
      end
  end.
Proof.
  unfold auth_callback, destructure, callback_params, issued, try_catch, bind,
    post_token, Date_now, ret. cbn zeta.
  destruct (oauth2_token E _ _); [reflexivity|]. cbn [calls log].
  destruct (saveTokens E _ _) as [[a|e] w']; reflexivity.
Qed.

(** X2. On a successful exchange that the database accepts, [/auth/callback]
    answers 200 and the row with key 1 is the issued pair, expiring at the
    clock reading taken after the exchange plus 1000 times the lifetime
    (these two and their sum being safe integers, which the doubles of line
    137 hold exactly); the handler has posted the code to the token endpoint
    and sent one upsert, nothing else. *)
Theorem auth_callback_stores_tokens
    (E : Env) (code : jsstring) (w : World) (response : TokenResponse) :
  let params := callback_params E code in
  let h1 := calls w ++ [axios_post token_url params] in
  let tokens :=
    {| access_token := data_access_token response;
       refresh_token := data_refresh_token response;
       expires_at := Some (now E h1 + data_expires_in response * 1000) |} in
  oauth2_token E (calls w) params = inr response ->
  safe_integer (now E h1) ->
  safe_integer (data_expires_in response * 1000) ->
  safe_integer (now E h1 + data_expires_in response * 1000) ->
  pg_error E h1 (UPSERT tokens) = None ->
  exists w',
    auth_callback E (Some code) w = (Normal callback_ok, w') /\
    db_tokens w' = <[1 := tokens]> (db_tokens w) /\
    trace (auth_callback E (Some code)) w =
      [axios_post token_url params; pool_query (UPSERT tokens)].
Proof.
  intros params h1 tokens Hpost Hnow Hlife Hsum Hups.
  pose proof (int8_safe _ Hsum) as Hint.
  subst params h1 tokens.
  unfold trace. rewrite auth_callback_run. cbn zeta. rewrite Hpost.
  unfold issued. cbn [calls log].
  rewrite (expiry_safe _ _ Hnow Hlife Hsum).
  rewrite saveTokens_run. cbn zeta. cbn [calls log expires_at].
  rewrite Hups, Hint.
  eexists. split; [reflexivity|]. split; [reflexivity|].
  cbn [snd calls]. rewrite <- !app_assoc. apply drop_app_length.
Qed.

Lemma auth_callback_stores_tokens_witness :
  exists w',
    auth_callback healthy (Some (Some "code-1"))
      (store_with expired_without_refresh) = (Normal callback_ok, w') /\
    db_tokens w' =
      <[1 := {| access_token := Some "access-2";
                refresh_token := Some "refresh-2";
                expires_at := Some (1000000 + 7200 * 1000) |}]>
        (db_tokens (store_with expired_without_refresh)) /\
    trace (auth_callback healthy (Some (Some "code-1")))
      (store_with expired_without_refresh) =
      [axios_post token_url (callback_params healthy (Some "code-1"));
       pool_query (UPSERT {| access_token := Some "access-2";
                             refresh_token := Some "refresh-2";
                             expires_at := Some (1000000 + 7200 * 1000) |})].
Proof.
  apply (auth_callback_stores_tokens healthy (Some "code-1")
           (store_with expired_without_refresh) fresh_pair);
    try reflexivity; unfold safe_integer; cbn; lia.
Defined.


(** ** [POST /auth/refresh] *)

Lemma auth_refresh_run (E : Env) (property : jsstring) (w : World) :
  auth_refresh E (Some property) w =
  match refreshToken E w with
  | (Normal tokens, w1) =>
      (Normal
         (res_json
            (JObject
               [("access_token", json_string (access_token tokens));
                ("refresh_token", json_string (refresh_token tokens));
                ("expires_in",
                 json_number
                   (Number ((ToNumber (expires_at tokens) - now E (calls w1))
                            / 1000)))])
            res), w1)
  | (Throw _, w1) => (Normal refresh_failed, w1)
  end.
Proof.
  unfold auth_refresh, destructure, try_catch, bind, Date_now, ret.
  destruct (refreshToken E w) as [[tokens|err] w1]; reflexivity.
Qed.

Lemma whole_seconds_left (t1 t2 lifetime : Z) :
  (t2 = t1 -> (t1 + lifetime * 1000 - t2) / 1000 = lifetime) /\
  (t1 < t2 < t1 + 1000 -> (t1 + lifetime * 1000 - t2) / 1000 = lifetime - 1) /\
  (t1 <= t2 -> (t1 + lifetime * 1000 - t2) / 1000 <= lifetime).
Proof.
  repeat split.
  - intros ->. rewrite Z.add_simpl_l. apply Z.div_mul. lia.
  - intros H. symmetry. apply (Z.div_unique_pos _ _ _ (t1 + 1000 - t2)); lia.
  - intros H. apply Z.div_le_upper_bound; lia.
Qed.

(** X4. When a refresh token is stored, the token endpoint answers the
    refresh with a pair and a lifetime, and the database accepts the two
    statements, [/auth/refresh] answers 200 with that pair and with the
    number of whole seconds between the clock reading at the response and
    the stored expiry.  With a clock that reads the same as at the exchange
    that number is the lifetime itself; with a clock that has moved forward
    by less than a second it is the lifetime less one; with a clock that has
    not gone back it is never more than the lifetime.  All the numbers are
    safe integers, which the doubles of lines 109 and 185 hold exactly. *)
Theorem auth_refresh_reports_remaining_lifetime
    (E : Env) (property : jsstring) (w : World) (t : Tokens)
    (response : TokenResponse) :
  let h0 := calls w ++ [refreshToken_called] in
  let h1 := h0 ++ [pool_query SELECT] in
  let params := refresh_params E (refresh_token t) in
  let h2 := h1 ++ [axios_post token_url params] in
  let lifetime := data_expires_in response in
  let t1 := now E h2 in
  let newTokens :=
    {| access_token := data_access_token response;
       refresh_token := data_refresh_token response;
       expires_at := Some (t1 + lifetime * 1000) |} in
  let t2 := now E (h2 ++ [pool_query (UPSERT newTokens)]) in
  let remaining := (t1 + lifetime * 1000 - t2) / 1000 in
  pg_error E h0 SELECT = None ->
  db_tokens w !! 1 = Some t ->
  truthy (refresh_token t) = true ->
  oauth2_token E h1 params = inr response ->
  safe_integer t1 ->
  safe_integer (lifetime * 1000) ->
  safe_integer (t1 + lifetime * 1000) ->
  safe_integer t2 ->
  safe_integer (t1 + lifetime * 1000 - t2) ->
  pg_error E h2 (UPSERT newTokens) = None ->
  fst (auth_refresh E (Some property) w) =
    Normal
      (res_json
         (JObject
            [("access_token", json_string (data_access_token response));
             ("refresh_token", json_string (data_refresh_token response));
             ("expires_in", json_number (Number remaining))])
         res) /\
  (t2 = t1 -> remaining = lifetime) /\
  (t1 < t2 < t1 + 1000 -> remaining = lifetime - 1) /\
  (t1 <= t2 -> remaining <= lifetime).
Proof.
  intros h0 h1 params h2 lifetime t1 newTokens t2 remaining
    Hsel Hrow Hrt Hpost Ht1 Hlife Hsum Ht2 Hdiff Hups.
  pose proof (int8_safe _ Hsum) as Hint.
  split; [|apply whole_seconds_left].
  subst h0 h1 params h2 lifetime t1 newTokens t2 remaining.
  rewrite auth_refresh_run, refreshToken_run. cbn zeta. cbn [calls log].
  rewrite Hsel, Hrow. cbn [mbind option_bind].
  rewrite Hrt, Hpost.
  rewrite (expiry_safe _ _ Ht1 Hlife Hsum).
  rewrite saveTokens_run. cbn zeta. cbn [calls log expires_at].
  rewrite Hups, Hint. reflexivity.
Qed.

Lemma auth_refresh_reports_remaining_lifetime_witness :
  fst (auth_refresh ticking (Some None) (store_with expired_tokens)) =
    Normal
      (res_json
         (JObject
            [("access_token", JString "access-2");
             ("refresh_token", JString "refresh-2");
             ("expires_in", json_number (Number 7199))])
         res) /\
  (1001600 = 1001200 -> 7199 = 7200) /\
  (1001200 < 1001600 < 1001200 + 1000 -> 7199 = 7200 - 1) /\
  (1001200 <= 1001600 -> 7199 <= 7200).
Proof.
  apply (auth_refresh_reports_remaining_lifetime ticking None
           (store_with expired_tokens) expired_tokens fresh_pair);
    try reflexivity; unfold safe_integer; cbn; lia.
Defined.


(** ** Two refreshes in a row *)

(** X6. The refresh token is rotated: after a refresh that stored a refresh
    token, the next refresh posts that new refresh token. *)
Theorem refreshToken_rotates (E : Env) (w w1 : World) (tokens : Tokens) :
  refreshToken E w = (Normal tokens, w1) ->
  truthy (refresh_token tokens) = true ->
  pg_error E (calls w1 ++ [refreshToken_called]) SELECT = None ->
  exists rest,
    trace (refreshToken E) w1 =
      refreshToken_called :: pool_query SELECT ::
      axios_post token_url (refresh_params E (refresh_token tokens)) :: rest.
Proof.
  intros Hrun Hrt Hsel.
  apply refreshToken_Normal in Hrun as (response & _ & _ & _ & Hdb & _).
  unfold trace. rewrite refreshToken_run. cbn zeta. cbn [calls log].
  rewrite Hsel, Hdb, lookup_insert_eq. cbn [mbind option_bind]. rewrite Hrt.
  destruct (oauth2_token E _ _) as [err|response'].
  - exists []. cbn [snd calls log]. rewrite <- !app_assoc. apply drop_app_length.
  - rewrite saveTokens_run. cbn zeta. cbn [calls log].
    destruct (pg_error E _ (UPSERT _)); [|destruct (int8 _)].
    all: eexists; cbn [snd calls log]; rewrite <- !app_assoc;
      rewrite drop_app_length; reflexivity.
Qed.

Lemma refreshToken_rotates_witness :
  let w1 := snd (refreshToken healthy (store_with expired_tokens)) in
  exists rest,
    trace (refreshToken healthy) w1 =
      refreshToken_called :: pool_query SELECT ::
      axios_post token_url (refresh_params healthy (Some "refresh-2")) :: rest.
Proof.
  intros w1.
  apply (refreshToken_rotates healthy (store_with expired_tokens) w1
           (issued fresh_pair 1000000)); reflexivity.
Defined.

(** X7. When the token endpoint answers a refresh without a refresh token, the
    stored refresh token is lost: the next refresh throws "No refresh token
    available" without calling the token endpoint. *)
Theorem refresh_without_new_refresh_token_locks_out
    (E : Env) (w w1 : World) (tokens : Tokens) :
  refreshToken E w = (Normal tokens, w1) ->
  truthy (refresh_token tokens) = false ->
  pg_error E (calls w1 ++ [refreshToken_called]) SELECT = None ->
  refreshToken E w1 =
    (Throw (Error "No refresh token available"),
     log (pool_query SELECT) (log refreshToken_called w1)) /\
  times is_exchange (trace (refreshToken E) w1) = 0%nat.
Proof.
  intros Hrun Hrt Hsel.
  apply refreshToken_Normal in Hrun as (response & _ & _ & _ & Hdb & _).
  assert (Hnext : refreshToken E w1 =
            (Throw (Error "No refresh token available"),
             log (pool_query SELECT) (log refreshToken_called w1))).
  { apply refreshToken_without_refresh_token; [exact Hsel|].
    rewrite Hdb, lookup_insert_eq. exact Hrt. }
  split; [exact Hnext|].
  unfold trace. rewrite Hnext. cbn [snd calls log].
  rewrite <- !app_assoc, drop_app_length. reflexivity.
Qed.

Lemma refresh_without_new_refresh_token_locks_out_witness :
  let w1 := snd (refreshToken no_rotation (store_with expired_tokens)) in
  refreshToken no_rotation w1 =
    (Throw (Error "No refresh token available"),
     log (pool_query SELECT) (log refreshToken_called w1)) /\
  times is_exchange (trace (refreshToken no_rotation) w1) = 0%nat.
Proof.
  intros w1.
  apply (refresh_without_new_refresh_token_locks_out no_rotation
           (store_with expired_tokens) w1
           {| access_token := Some "access-2"; refresh_token := None;
              expires_at := Some 8200000 |}); reflexivity.
Defined.

(** ** The data-fetch handlers, continued *)

(** The world a data-fetch handler leaves when the stored token has not
    expired. *)
Lemma fetch_unexpired_world
    (E : Env) (h : Env -> jsstring -> jsstring -> M Response)
    (startDate endDate : jsstring) (w : World) (t : Tokens) :
  In h data_fetch ->
  pg_error E (calls w) SELECT = None ->
  db_tokens w !! 1 = Some t ->
  truthy (access_token t) = true ->
  now E (calls w ++ [pool_query SELECT]) <= ToNumber (expires_at t) ->
  snd (h E startDate endDate w) =
    log (data_call t startDate endDate) (log (pool_query SELECT) w).
Proof.
  intros Hh Hsel Hrow Hacc Hexp.
  assert (Hgt : (now E (calls w ++ [pool_query SELECT])
                 >? ToNumber (expires_at t)) = false)
    by (rewrite Z.gtb_ltb; apply Z.ltb_ge; lia).
  destruct (data_fetch_cases h Hh) as [-> | [-> | ->]];
    load Hsel Hrow Hacc; rewrite Hgt; repeat (branch; cbn); reflexivity.
Qed.

(** The world a data-fetch handler leaves when the stored token has expired
    and the refresh returns. *)
Lemma fetch_refreshed_world
    (E : Env) (h : Env -> jsstring -> jsstring -> M Response)
    (startDate endDate : jsstring) (w w1 : World) (t r : Tokens) :
  In h data_fetch ->
  pg_error E (calls w) SELECT = None ->
  db_tokens w !! 1 = Some t ->
  truthy (access_token t) = true ->
  now E (calls w ++ [pool_query SELECT]) > ToNumber (expires_at t) ->
  refreshToken E (log (pool_query SELECT) w) = (Normal r, w1) ->
  snd (h E startDate endDate w) = log (data_call r startDate endDate) w1.
Proof.
  intros Hh Hsel Hrow Hacc Hexp Hrun.
  apply Z.gt_lt, Z.gtb_lt in Hexp.
  destruct (data_fetch_cases h Hh) as [-> | [-> | ->]];
    load Hsel Hrow Hacc; rewrite Hexp, Hrun; repeat (branch; cbn); reflexivity.
Qed.


(** X8. Without a stored access token (no row, a null or an empty access token)
    a data-fetch handler answers 401 after the one select: it calls neither
    Dexcom endpoint and leaves the table alone. *)
Theorem unauthorized_makes_no_upstream_call
    (E : Env) (h : Env -> jsstring -> jsstring -> M Response)
    (startDate endDate : jsstring) (w : World) :
  In h data_fetch ->
  pg_error E (calls w) SELECT = None ->
  truthy (db_tokens w !! 1 ≫= access_token) = false ->
  exists r w',
    h E startDate endDate w = (Normal r, w') /\
    status r = 401 /\
    trace (h E startDate endDate) w = [pool_query SELECT] /\
    db_tokens w' = db_tokens w.
Proof.
  intros Hh Hsel Hacc.
  destruct (missing_access_token_401 E h startDate endDate w Hh Hsel Hacc)
    as (r & Hrun & Hstatus).
  exists r, (log (pool_query SELECT) w).
  split; [exact Hrun|]. split; [exact Hstatus|]. split; [|reflexivity].
  unfold trace. rewrite Hrun. cbn [snd calls log]. apply drop_app_length.
Qed.

Lemma unauthorized_makes_no_upstream_call_witness :
  exists r w',
    charts healthy None None
      (store_with {| access_token := Some ""; refresh_token := Some "refresh-1";
                     expires_at := Some 500000 |}) = (Normal r, w') /\
    status r = 401 /\
    trace (charts healthy None None)
      (store_with {| access_token := Some ""; refresh_token := Some "refresh-1";
                     expires_at := Some 500000 |}) = [pool_query SELECT] /\
    db_tokens w' =
      db_tokens (store_with {| access_token := Some "";
                               refresh_token := Some "refresh-1";
                               expires_at := Some 500000 |}).
Proof.
  apply (unauthorized_makes_no_upstream_call healthy charts);
    [unfold data_fetch; cbn; auto | reflexivity | reflexivity].
Defined.

(** X9. With a stored access token that has not expired, a data-fetch handler
    makes exactly two calls: the select, then one get of the data endpoint
    that carries the stored access token as bearer and the two dates of the
    query as they came.  The table is not written. *)
Theorem unexpired_fetch_trace
    (E : Env) (h : Env -> jsstring -> jsstring -> M Response)
    (startDate endDate : jsstring) (w : World) (t : Tokens) :
  In h data_fetch ->
  pg_error E (calls w) SELECT = None ->
  db_tokens w !! 1 = Some t ->
  truthy (access_token t) = true ->
  now E (calls w ++ [pool_query SELECT]) <= ToNumber (expires_at t) ->
  trace (h E startDate endDate) w =
    [pool_query SELECT; data_call t startDate endDate] /\
  db_tokens (snd (h E startDate endDate w)) = db_tokens w.
Proof.
  intros Hh Hsel Hrow Hacc Hexp.
  unfold trace.
  rewrite (fetch_unexpired_world E h startDate endDate w t Hh Hsel Hrow Hacc Hexp).
  cbn [calls db_tokens log]. split; [|reflexivity].
  rewrite <- !app_assoc. apply drop_app_length.
Qed.

Lemma unexpired_fetch_trace_witness :
  trace (trends healthy (Some "2024-01-01") (Some "2024-01-02"))
    (store_with valid_tokens) =
    [pool_query SELECT;
     axios_get egvs_url "Bearer access-1"
       [("startDate", Some "2024-01-01"); ("endDate", Some "2024-01-02")]] /\
  db_tokens (snd (trends healthy (Some "2024-01-01") (Some "2024-01-02")
                    (store_with valid_tokens))) =
    db_tokens (store_with valid_tokens).
Proof.
  apply (unexpired_fetch_trace healthy trends (Some "2024-01-01")
           (Some "2024-01-02") (store_with valid_tokens) valid_tokens);
    [unfold data_fetch; cbn; auto | reflexivity | reflexivity | reflexivity |].
  cbn. discriminate.
Defined.

(** X10. With a stored access token that has expired and a refresh that returns,
    the data call carries the new access token, not the expired one; the
    whole run is the select, the refresh (select, exchange, upsert) and the
    data call, and the row with key 1 is the refreshed record. *)
Theorem expired_fetch_uses_new_token
    (E : Env) (h : Env -> jsstring -> jsstring -> M Response)
    (startDate endDate : jsstring) (w w1 : World) (t r : Tokens) :
  In h data_fetch ->
  pg_error E (calls w) SELECT = None ->
  db_tokens w !! 1 = Some t ->
  truthy (access_token t) = true ->
  now E (calls w ++ [pool_query SELECT]) > ToNumber (expires_at t) ->
  refreshToken E (log (pool_query SELECT) w) = (Normal r, w1) ->
  trace (h E startDate endDate) w =
    [pool_query SELECT; refreshToken_called; pool_query SELECT;
     axios_post token_url (refresh_params E (refresh_token t));
     pool_query (UPSERT r); data_call r startDate endDate] /\
  db_tokens (snd (h E startDate endDate w)) !! 1 = Some r.
Proof.
  intros Hh Hsel Hrow Hacc Hexp Hrun.
  unfold trace.
  rewrite (fetch_refreshed_world E h startDate endDate w w1 t r
             Hh Hsel Hrow Hacc Hexp Hrun).
  apply refreshToken_Normal in Hrun as (response & _ & _ & _ & Hdb & Hcalls).
  cbn [calls db_tokens log] in *. rewrite Hrow in Hcalls.
  cbn [mbind option_bind] in Hcalls.
  rewrite Hcalls, Hdb. split; [|apply lookup_insert_eq].
  rewrite <- !app_assoc. apply drop_app_length.
Qed.

Lemma expired_fetch_uses_new_token_witness :
  trace (glucose healthy None None) (store_with expired_tokens) =
    [pool_query SELECT; refreshToken_called; pool_query SELECT;
     axios_post token_url (refresh_params healthy (Some "refresh-1"));
     pool_query (UPSERT (issued fresh_pair 1000000));
     axios_get egvs_url "Bearer access-2"
       [("startDate", None); ("endDate", None)]] /\
  db_tokens (snd (glucose healthy None None (store_with expired_tokens))) !! 1
    = Some (issued fresh_pair 1000000).
Proof.
  apply (expired_fetch_uses_new_token healthy glucose None None
           (store_with expired_tokens)
           (snd (refreshToken healthy
                   (log (pool_query SELECT) (store_with expired_tokens))))
           expired_tokens (issued fresh_pair 1000000));
    [unfold data_fetch; cbn; auto | reflexivity ..].
Defined.

(** X11. A refreshed token is used as it is until it expires: a data-fetch
    request served after a refresh returned, while the clock is not past the
    new expiry, does not refresh again and calls the data endpoint with the
    new access token. *)
Theorem refreshed_token_is_reused
    (E : Env) (h : Env -> jsstring -> jsstring -> M Response)
    (startDate endDate : jsstring) (w w1 : World) (r : Tokens) :
  refreshToken E w = (Normal r, w1) ->
  In h data_fetch ->
  pg_error E (calls w1) SELECT = None ->
  truthy (access_token r) = true ->
  now E (calls w1 ++ [pool_query SELECT]) <= ToNumber (expires_at r) ->
  trace (h E startDate endDate) w1 =
    [pool_query SELECT; data_call r startDate endDate].
Proof.
  intros Hrun Hh Hsel Hacc Hexp.
  apply refreshToken_Normal in Hrun as (response & _ & _ & _ & Hdb & _).
  assert (Hrow : db_tokens w1 !! 1 = Some r)
    by (rewrite Hdb; apply lookup_insert_eq).
  unfold trace.
  rewrite (fetch_unexpired_world E h startDate endDate w1 r Hh Hsel Hrow Hacc Hexp).
  cbn [calls log]. rewrite <- !app_assoc. apply drop_app_length.
Qed.

Lemma refreshed_token_is_reused_witness :
  let w1 := snd (refreshToken healthy (store_with expired_tokens)) in
  trace (glucose healthy None None) w1 =
    [pool_query SELECT;
     data_call (issued fresh_pair 1000000) None None].
Proof.
  intros w1.
  apply (refreshed_token_is_reused healthy glucose None None
           (store_with expired_tokens) w1 (issued fresh_pair 1000000));
    [reflexivity | unfold data_fetch; cbn; auto | reflexivity | reflexivity |].
  cbn. discriminate.
Defined.



(** X13. [GET /glucose] with an unexpired token: the records of the upstream
    answer are sent one for one, in order, with status 200; an upstream
    error is answered 500 with, as details, the payload of the upstream
    error when it has one and its message otherwise. *)
Theorem glucose_forwards_upstream
    (E : Env) (startDate endDate : jsstring) (w : World) (t : Tokens) :
  pg_error E (calls w) SELECT = None ->
  db_tokens w !! 1 = Some t ->
  truthy (access_token t) = true ->
  now E (calls w ++ [pool_query SELECT]) <= ToNumber (expires_at t) ->
  match egvs E (calls w ++ [pool_query SELECT])
          ("Bearer " +:+ template (access_token t))
          [("startDate", startDate); ("endDate", endDate)] with
  | inr records =>
      fst (glucose E startDate endDate w) =
        Normal (res_json (JArray (map json_of_reading records)) res)
  | inl err =>
      fst (glucose E startDate endDate w) =
        Normal (res_json
                  (JObject [("error", JString "Failed to fetch glucose data");
                            ("details", details err)])
                  (res_status 500 res)) /\
      (forall d, response_data err = Some d -> json_truthy d = true ->
                 details err = d) /\
      (response_data err = None -> details err = JString (message err))
  end.
Proof.
  intros Hsel Hrow Hacc Hexp.
  assert (Hgt : (now E (calls w ++ [pool_query SELECT])
                 >? ToNumber (expires_at t)) = false)
    by (rewrite Z.gtb_ltb; apply Z.ltb_ge; lia).
  destruct (egvs E _ _ _) as [err|records] eqn:Hget.
  - split; [|split].
    + load Hsel Hrow Hacc. rewrite Hgt. cbn [calls log]. rewrite Hget.
      reflexivity.
    + intros d Hd Htruthy. unfold details. rewrite Hd, Htruthy. reflexivity.
    + intros Hd. unfold details. rewrite Hd. reflexivity.
  - load Hsel Hrow Hacc. rewrite Hgt. cbn [calls log]. rewrite Hget.
    reflexivity.
Qed.

Lemma glucose_forwards_upstream_witness :
  (fst (glucose healthy None None (store_with valid_tokens)) =
     Normal (res_json (JArray (map json_of_reading sample_readings)) res)) /\
  (fst (glucose data_down None None (store_with valid_tokens)) =
     Normal (res_json
               (JObject [("error", JString "Failed to fetch glucose data");
                         ("details", JObject [("fault", JString "invalid token")])])
               (res_status 500 res))).
Proof.
  split.
  - apply (glucose_forwards_upstream healthy None None
             (store_with valid_tokens) valid_tokens);
      [reflexivity | reflexivity | reflexivity |].
    cbn. discriminate.
  - apply (glucose_forwards_upstream data_down None None
             (store_with valid_tokens) valid_tokens);
      [reflexivity | reflexivity | reflexivity |].
    cbn. discriminate.
Defined.

(** ** Every route *)


(** ** What the routes may do to the world *)

Section Respects.

Variable R : World -> World -> Prop.
Hypothesis R_refl : forall w, R w w.
Hypothesis R_trans : forall w1 w2 w3, R w1 w2 -> R w2 w3 -> R w1 w3.

Lemma respects_ret {A} (a : A) : respects R (ret a).
Proof. intros w. apply R_refl. Qed.

Lemma respects_throw {A} (e : Exn) : respects R (@throw A e).
Proof. intros w. apply R_refl. Qed.

Lemma respects_bind {A B} (m : M A) (k : A -> M B) :
  respects R m -> (forall a, respects R (k a)) -> respects R (bind m k).
Proof.
  intros Hm Hk w. unfold bind. specialize (Hm w).
  destruct (m w) as [[a|e] w']; cbn in *.
  - eapply R_trans; [exact Hm|apply Hk].
  - exact Hm.
Qed.

Lemma respects_try_catch {A} (m : M A) (handler : Exn -> M A) :
  respects R m -> (forall e, respects R (handler e)) ->
  respects R (try_catch m handler).
Proof.
  intros Hm Hh w. unfold try_catch. specialize (Hm w).
  destruct (m w) as [[a|e] w']; cbn in *.
  - exact Hm.
  - eapply R_trans; [exact Hm|apply Hh].
Qed.

End Respects.

Lemma evolves_refl (w : World) : evolves w w.
Proof. split; [reflexivity|auto]. Qed.

Lemma evolves_trans (w1 w2 w3 : World) :
  evolves w1 w2 -> evolves w2 w3 -> evolves w1 w3.
Proof.
  intros (Ho1 & Hk1) (Ho2 & Hk2).
  split; [intros k Hk; rewrite Ho2, Ho1 by exact Hk; reflexivity|auto].
Qed.

Lemma evolves_log (c : Call) (w : World) : evolves w (log c w).
Proof. split; [reflexivity|auto]. Qed.

Section Evolves.

Variable E : Env.

Lemma evolves_Date_now : respects evolves (Date_now E).
Proof. intros w. apply evolves_refl. Qed.

Lemma evolves_mark : respects evolves (fun w => (Normal tt, log refreshToken_called w)).
Proof. intros w. apply evolves_log. Qed.

Lemma evolves_query_select : respects evolves (query_select E).
Proof.
  intros w. unfold query_select.
  destruct (pg_error E (calls w) SELECT); apply evolves_log.
Qed.

Lemma evolves_query_upsert (values : Tokens) :
  respects evolves (query_upsert E values).
Proof.
  intros w. unfold query_upsert.
  destruct (pg_error E (calls w) (UPSERT values)); [apply evolves_log|].
  destruct (int8 (expires_at values)); [|apply evolves_log].
  cbn [snd]. split.
  - intros k Hk. cbn [db_tokens]. apply lookup_insert_ne. congruence.
  - intros _. cbn [db_tokens]. rewrite lookup_insert_eq. eauto.
Qed.

Lemma evolves_post_token (params : Params) :
  respects evolves (post_token E params).
Proof.
  intros w. unfold post_token.
  destruct (oauth2_token E (calls w) params); apply evolves_log.
Qed.

Lemma evolves_get_egvs (authorization : string) (startDate endDate : jsstring) :
  respects evolves
    (get_egvs E authorization [("startDate", startDate); ("endDate", endDate)]).
Proof.
  intros w. unfold get_egvs.
  destruct (egvs E (calls w) _ _); apply evolves_log.
Qed.

Lemma evolves_render (width height : Z) (c : ChartConfiguration) :
  respects evolves (render E width height c).
Proof.
  intros w. unfold render.
  destruct (renderToBuffer E width height c); apply evolves_refl.
Qed.

Lemma evolves_identifier (ident : string) : respects evolves (identifier ident).
Proof.
  intros w. unfold identifier. destruct (bound ident); apply evolves_refl.
Qed.

(** Splits a computation along its binds, handlers and branches. *)
Ltac evolves_step :=
  first
    [ apply (respects_ret evolves evolves_refl)
    | apply (respects_throw evolves evolves_refl)
    | apply evolves_Date_now | apply evolves_mark
    | apply evolves_query_select | apply evolves_query_upsert
    | apply evolves_post_token | apply evolves_get_egvs
    | apply evolves_render | apply evolves_identifier
    | assumption
    | apply (respects_bind evolves evolves_trans); [|intros ?]
    | apply (respects_try_catch evolves evolves_trans); [|intros ?]
    | match goal with
      | |- respects evolves (if ?b then _ else _) => destruct b
      | |- respects evolves (match ?x with Some _ => _ | None => _ end) =>
          destruct x
      end ].

Lemma evolves_saveTokens (tokenData : Tokens) :
  respects evolves (saveTokens E tokenData).
Proof. unfold saveTokens; cbv zeta. repeat evolves_step. Qed.

Lemma evolves_getTokens : respects evolves (getTokens E).
Proof. unfold getTokens. repeat evolves_step. Qed.

Lemma evolves_refreshToken : respects evolves (refreshToken E).
Proof.
  pose proof evolves_getTokens. pose proof evolves_saveTokens.
  unfold refreshToken. repeat evolves_step.
Qed.

Lemma evolves_serve (req : Request) : respects evolves (serve E req).
Proof.
  pose proof evolves_getTokens. pose proof evolves_saveTokens.
  pose proof evolves_refreshToken.
  destruct req; cbn [serve];
    unfold auth_callback, glucose, auth_refresh, trends, charts; cbv zeta;
    repeat evolves_step.
Qed.

Lemma evolves_serve_all (reqs : list Request) (w : World) :
  evolves w (snd (serve_all E reqs w)).
Proof.
  revert w. induction reqs as [|req rest IH]; intros w; cbn;
    [apply evolves_refl|].
  pose proof (evolves_serve req w) as H1.
  destruct (serve E req w) as [c w1]; cbn in H1.
  specialize (IH w1).
  destruct (serve_all E rest w1) as [rs w2]; cbn in IH.
  eapply evolves_trans; eassumption.
Qed.

End Evolves.

(** X15. Whatever requests are served, the program writes no row but the one
    with key 1: every other row of the table is as it was. *)
Theorem other_rows_untouched
    (E : Env) (reqs : list Request) (w : World) (k : Z) :
  k <> 1 ->
  db_tokens (snd (serve_all E reqs w)) !! k = db_tokens w !! k.
Proof. intros Hk. apply (evolves_serve_all E reqs w). exact Hk. Qed.

Lemma other_rows_untouched_witness :
  db_tokens
    (snd (serve_all healthy
            [POST_auth_callback (Some "code-1"); GET_trends None None;
             POST_auth_refresh]
            store_with_stray_row)) !! 2
  = db_tokens store_with_stray_row !! 2.
Proof.
  apply (other_rows_untouched healthy
           [POST_auth_callback (Some "code-1"); GET_trends None None;
            POST_auth_refresh]
           store_with_stray_row 2).
  discriminate.
Defined.

(** X16. The token record is never deleted: once the table has a row with key 1,
    it has one after any requests. *)
Theorem token_record_never_deleted
    (E : Env) (reqs : list Request) (w : World) :
  is_Some (db_tokens w !! 1) ->
  is_Some (db_tokens (snd (serve_all E reqs w)) !! 1).
Proof. intros Hrow. apply (evolves_serve_all E reqs w). exact Hrow. Qed.

Lemma token_record_never_deleted_witness :
  is_Some
    (db_tokens
       (snd (serve_all exchange_down
               [POST_auth_refresh; GET_glucose None None;
                POST_auth_callback None]
               (store_with expired_tokens))) !! 1).
Proof.
  apply (token_record_never_deleted exchange_down).
  eexists. reflexivity.
Defined.

(** ** The trend statistics, continued *)

Lemma fold_max_from_nan (values : list float) :
  fold_left
    (fun highest number =>
       if is_nan highest || is_nan number then nan
       else if (is_pos_zero number && is_neg_zero highest) || (highest <? number)%float
            then number else highest)
    values nan = nan.
Proof. induction values as [|x rest IH]; [reflexivity|exact IH]. Qed.

Lemma fold_min_from_nan (values : list float) :
  fold_left
    (fun lowest number =>
       if is_nan lowest || is_nan number then nan
       else if (is_neg_zero number && is_pos_zero lowest) || (number <? lowest)%float
            then number else lowest)
    values nan = nan.
Proof. induction values as [|x rest IH]; [reflexivity|exact IH]. Qed.

Lemma Math_max_of_NaN (values : list float) (x : float) :
  In x values -> is_nan x = true -> Math_max values = nan.
Proof.
  intros Hin Hnan. unfold Math_max. generalize neg_infinity as acc.
  induction values as [|y rest IH]; intros acc; [destruct Hin|].
  cbn [fold_left]. destruct Hin as [->|Hin].
  - rewrite Hnan, orb_true_r. apply fold_max_from_nan.
  - apply IH, Hin.
Qed.

Lemma Math_min_of_NaN (values : list float) (x : float) :
  In x values -> is_nan x = true -> Math_min values = nan.
Proof.
  intros Hin Hnan. unfold Math_min. generalize infinity as acc.
  induction values as [|y rest IH]; intros acc; [destruct Hin|].
  cbn [fold_left]. destruct Hin as [->|Hin].
  - rewrite Hnan, orb_true_r. apply fold_min_from_nan.
  - apply IH, Hin.
Qed.

(** X18. One reading whose value is not a number (NaN) is enough for the highest
    and the lowest of the trends to be NaN, which the response shows as
    [null], whatever the other readings are. *)
Theorem NaN_reading_blanks_extremes (values : list float) (x : float) :
  In x values ->
  is_nan x = true ->
  highest (analysis values) = nan /\
  lowest (analysis values) = nan /\
  json_number (highest (analysis values)) = JNull /\
  json_number (lowest (analysis values)) = JNull.
Proof.
  intros Hin Hnan. cbn [analysis highest lowest].
  rewrite (Math_max_of_NaN values x Hin Hnan), (Math_min_of_NaN values x Hin Hnan).
  repeat split.
Qed.

Lemma NaN_reading_blanks_extremes_witness :
  highest (analysis [100; nan; 200]%float) = nan /\
  lowest (analysis [100; nan; 200]%float) = nan /\
  json_number (highest (analysis [100; nan; 200]%float)) = JNull /\
  json_number (lowest (analysis [100; nan; 200]%float)) = JNull.
Proof.
  apply (NaN_reading_blanks_extremes [100; nan; 200]%float nan).
  - right; left; reflexivity.
  - reflexivity.
Defined.

(** X19. The highest and the lowest of the trends are never made up: each is the
    value of one of the readings, or NaN, or the infinity [Math.max] and
    [Math.min] start from. *)
Theorem extremes_are_readings (values : list float) :
  (In (highest (analysis values)) values \/
   highest (analysis values) = nan \/
   highest (analysis values) = neg_infinity) /\
  (In (lowest (analysis values)) values \/
   lowest (analysis values) = nan \/
   lowest (analysis values) = infinity).
Proof.
  cbn [analysis highest lowest]. split.
  - unfold Math_max. generalize neg_infinity as acc.
    induction values as [|y rest IH]; intros acc; [auto|].
    cbn [fold_left].
    destruct (is_nan acc || is_nan y).
    + rewrite fold_max_from_nan. auto.
    + destruct (_ || _).
      * destruct (IH y) as [H|[H|H]]; [left; right; exact H | auto |].
        left; left. symmetry. exact H.
      * destruct (IH acc) as [H|[H|H]]; [left; right; exact H | auto | auto].
  - unfold Math_min. generalize infinity as acc.
    induction values as [|y rest IH]; intros acc; [auto|].
    cbn [fold_left].
    destruct (is_nan acc || is_nan y).
    + rewrite fold_min_from_nan. auto.
    + destruct (_ || _).
      * destruct (IH y) as [H|[H|H]]; [left; right; exact H | auto |].
        left; left. symmetry. exact H.
      * destruct (IH acc) as [H|[H|H]]; [left; right; exact H | auto | auto].
Qed.

(** ** The chart, continued *)

(** X20. [GET /charts] fetches the readings and then fails: with an unexpired
    token and whatever records the data endpoint returns, the handler makes
    the data call and answers 500 "Failed to generate chart", because
    [ChartJSNodeCanvas] is not bound; the renderer is never reached. *)
Theorem charts_fails_after_fetching
    (E : Env) (startDate endDate : jsstring) (w : World) (t : Tokens)
    (records : list Reading) :
  pg_error E (calls w) SELECT = None ->
  db_tokens w !! 1 = Some t ->
  truthy (access_token t) = true ->
  now E (calls w ++ [pool_query SELECT]) <= ToNumber (expires_at t) ->
  egvs E (calls w ++ [pool_query SELECT])
    ("Bearer " +:+ template (access_token t))
    [("startDate", startDate); ("endDate", endDate)] = inr records ->
  charts E startDate endDate w =
    (Normal (res_json (error_body "Failed to generate chart")
               (res_status 500 res)),
     log (data_call t startDate endDate) (log (pool_query SELECT) w)).
Proof.
  intros Hsel Hrow Hacc Hexp Hget.
  assert (Hgt : (now E (calls w ++ [pool_query SELECT])
                 >? ToNumber (expires_at t)) = false)
    by (rewrite Z.gtb_ltb; apply Z.ltb_ge; lia).
  load Hsel Hrow Hacc. rewrite Hgt. cbn [calls log]. rewrite Hget.
  reflexivity.
Qed.

Lemma charts_fails_after_fetching_witness :
  charts healthy (Some "2024-01-01") None (store_with valid_tokens) =
    (Normal (res_json (error_body "Failed to generate chart")
               (res_status 500 res)),
     log (data_call valid_tokens (Some "2024-01-01") None)
       (log (pool_query SELECT) (store_with valid_tokens))).
Proof.
  apply (charts_fails_after_fetching healthy (Some "2024-01-01") None
           (store_with valid_tokens) valid_tokens sample_readings);
    [reflexivity | reflexivity | reflexivity | | reflexivity].
  cbn. discriminate.
Defined.
